(** * TagBridge: a tagging memory bridge between a master and a slave

    Shallow embedding of [src/mem/tag_bridge.cc].  The bridge owns two
    ports.  The slave port faces the upstream agent: it receives
    requests and sends responses back.  The master port faces the
    downstream agent: it sends requests and receives responses.  Each
    port keeps a [transmitList] of deferred packets; the slave port also
    counts the responses it has reserved room for.

    C++ methods mutate the bridge and the packet they are handed.  Here
    they are computations in a small monad [M] that threads the bridge,
    stops at a failed [assert], and logs every call the bridge makes on
    its collaborators (the event queue and the two peer ports).  A
    packet is passed by pointer in the source, so every method that
    mutates its argument returns the packet as the caller sees it
    afterwards. *)

From Stdlib Require Import List Arith Bool String NArith ZArith Lia PeanoNat.
Import ListNotations.
Local Open Scope string_scope.
Local Open Scope list_scope.
Local Open Scope nat_scope.

Set Implicit Arguments.

(** ** Packets *)

Definition Tick := nat.
Definition Cycles := nat.
Definition Addr := nat.
Definition PortID := Z.
Definition DSidT := nat.

(** [Tick] is a 64-bit unsigned integer in the source, and a [Cycles]
    value converts to one.  Where the bridge does arithmetic on them
    the result is reduced modulo [2^64], as the machine does. *)
Definition tickModulus : N := (2 ^ 64)%N.

Definition tickMul (a b : nat) : Tick :=
  N.to_nat ((N.of_nat a * N.of_nat b) mod tickModulus)%N.

Definition tickAdd (a b : Tick) : Tick :=
  N.to_nat ((N.of_nat a + N.of_nat b) mod tickModulus)%N.

(** [Packet::SenderState]: the bridge pushes its own [RequestState];
    other components push states of other dynamic types, which a
    [dynamic_cast<RequestState*>] turns into [NULL]. *)
Inductive SenderState : Type :=
| RequestState (origSrc : PortID)
| ForeignState (owner : nat).

(** Modelled from the spec: the transaction type is declared in
    [mem/packet.hh], outside this file.  The record keeps the fields the
    bridge reads or writes: address, the "needs response" and inhibit
    flags, source and destination, the sender-state stack, the
    write-once tag ([None] when [hasDSid()] is false), the two
    timing-hint fields, the label stack and whether the packet has been
    turned into a response. *)
Record Packet : Type := mkPacket {
  getAddr : Addr;
  needsResponse : bool;
  memInhibitAsserted : bool;
  getSrc : PortID;
  getDest : PortID;
  senderState : list SenderState;
  getDSid : option DSidT;
  firstWordDelay : Tick;
  lastWordDelay : Tick;
  labels : list string;
  isResponse : bool
}.

Definition hasDSid (pkt : Packet) : bool :=
  match getDSid pkt with Some _ => true | None => false end.

Definition setDSid (pkt : Packet) (d : DSidT) : Packet :=
  mkPacket (getAddr pkt) (needsResponse pkt) (memInhibitAsserted pkt)
           (getSrc pkt) (getDest pkt) (senderState pkt) (Some d)
           (firstWordDelay pkt) (lastWordDelay pkt) (labels pkt)
           (isResponse pkt).

Definition setDest (pkt : Packet) (d : PortID) : Packet :=
  mkPacket (getAddr pkt) (needsResponse pkt) (memInhibitAsserted pkt)
           (getSrc pkt) d (senderState pkt) (getDSid pkt)
           (firstWordDelay pkt) (lastWordDelay pkt) (labels pkt)
           (isResponse pkt).

Definition setSenderState (pkt : Packet) (st : list SenderState) : Packet :=
  mkPacket (getAddr pkt) (needsResponse pkt) (memInhibitAsserted pkt)
           (getSrc pkt) (getDest pkt) st (getDSid pkt)
           (firstWordDelay pkt) (lastWordDelay pkt) (labels pkt)
           (isResponse pkt).

Definition pushSenderState (pkt : Packet) (s : SenderState) : Packet :=
  setSenderState pkt (s :: senderState pkt).

(** [pkt->firstWordDelay = pkt->lastWordDelay = 0] *)
Definition zeroWordDelays (pkt : Packet) : Packet :=
  mkPacket (getAddr pkt) (needsResponse pkt) (memInhibitAsserted pkt)
           (getSrc pkt) (getDest pkt) (senderState pkt) (getDSid pkt)
           0 0 (labels pkt) (isResponse pkt).

Definition setLabels (pkt : Packet) (ls : list string) : Packet :=
  mkPacket (getAddr pkt) (needsResponse pkt) (memInhibitAsserted pkt)
           (getSrc pkt) (getDest pkt) (senderState pkt) (getDSid pkt)
           (firstWordDelay pkt) (lastWordDelay pkt) ls (isResponse pkt).

Definition pushLabel (pkt : Packet) (l : string) : Packet :=
  setLabels pkt (l :: labels pkt).

Definition popLabel (pkt : Packet) : Packet :=
  setLabels pkt (tl (labels pkt)).

(** Modelled from the spec: [Packet::makeResponse] lives in
    [mem/packet.hh]; the spec only says that the probe is converted into
    a response, which is what the flag records. *)
Definition makeResponse (pkt : Packet) : Packet :=
  mkPacket (getAddr pkt) (needsResponse pkt) (memInhibitAsserted pkt)
           (getSrc pkt) (getDest pkt) (senderState pkt) (getDSid pkt)
           (firstWordDelay pkt) (lastWordDelay pkt) (labels pkt) true.

(** ** The bridge and its two ports *)

Record DeferredPacket : Type := mkDeferredPacket {
  tick : Tick;
  pkt : Packet
}.

Record BridgeSlavePort : Type := mkSlavePort {
  slave_name : string;
  slave_delay : Cycles;
  outstandingResponses : nat;
  retryReq : bool;
  respQueueLimit : nat;
  slave_transmitList : list DeferredPacket
}.

Record BridgeMasterPort : Type := mkMasterPort {
  master_delay : Cycles;
  reqQueueLimit : nat;
  master_transmitList : list DeferredPacket
}.

Record TagBridge : Type := mkTagBridge {
  slavePort : BridgeSlavePort;
  masterPort : BridgeMasterPort;
  DSid : DSidT
}.

(** Construction parameters ([TagBridgeParams]); [delay] is already in
    cycles, as the constructor hands [ticksToCycles(p->delay)] to both
    ports. *)
Record Params : Type := mkParams {
  p_name : string;
  p_delay : Cycles;
  p_resp_size : nat;
  p_req_size : nat;
  p_DSid : DSidT
}.

(** [TagBridge::TagBridge]: no outstanding response, no retry pending,
    both lists empty. *)
Definition newTagBridge (p : Params) : TagBridge :=
  mkTagBridge
    (mkSlavePort (p_name p ++ ".slave")%string (p_delay p) 0 false (p_resp_size p) [])
    (mkMasterPort (p_delay p) (p_req_size p) [])
    (p_DSid p).

Definition withSlave (b : TagBridge) (s : BridgeSlavePort) : TagBridge :=
  mkTagBridge s (masterPort b) (DSid b).

Definition withMaster (b : TagBridge) (m : BridgeMasterPort) : TagBridge :=
  mkTagBridge (slavePort b) m (DSid b).

Definition setRetryReq (v : bool) (b : TagBridge) : TagBridge :=
  let s := slavePort b in
  withSlave b (mkSlavePort (slave_name s) (slave_delay s)
                           (outstandingResponses s) v
                           (respQueueLimit s) (slave_transmitList s)).

Definition setOutstandingResponses (n : nat) (b : TagBridge) : TagBridge :=
  let s := slavePort b in
  withSlave b (mkSlavePort (slave_name s) (slave_delay s) n (retryReq s)
                           (respQueueLimit s) (slave_transmitList s)).

Definition setSlaveList (l : list DeferredPacket) (b : TagBridge) : TagBridge :=
  let s := slavePort b in
  withSlave b (mkSlavePort (slave_name s) (slave_delay s)
                           (outstandingResponses s) (retryReq s)
                           (respQueueLimit s) l).

Definition setMasterList (l : list DeferredPacket) (b : TagBridge) : TagBridge :=
  let m := masterPort b in
  withMaster b (mkMasterPort (master_delay m) (reqQueueLimit m) l).

(** ** Calls on collaborators *)

Inductive SendEvent : Type := SlaveSendEvent | MasterSendEvent.

(** What the bridge asks of the outside world, in program order.  The
    two timed sends carry the answer of the peer. *)
Inductive Effect : Type :=
| Schedule (ev : SendEvent) (when : Tick)
| SendRetry
| SendTimingReq (p : Packet) (accepted : bool)
| SendTimingResp (p : Packet) (accepted : bool)
| SendAtomic (p : Packet)
| SendFunctional (p : Packet)
| CheckFunctional (probe other : Packet).

(** Services the bridge consumes through narrow interfaces and that
    are not part of this file.  [clockPeriod] and [clockEdge] are those
    of the [ClockedObject] the bridge derives from; [clockEdge now c]
    stands for [clockEdge(Cycles(c))] called while [curTick()] is
    [now].  [pktCheckFunctional probe other] stands for
    [probe->checkFunctional(other)]. *)
Class Simulator : Type := {
  clockPeriod : Tick;
  clockEdge : Tick -> Cycles -> Tick;
  pktCheckFunctional : Packet -> Packet -> bool
}.

(** ** The monad of bridge methods *)

Inductive Result (A : Type) : Type :=
| Ok (a : A)
| Fatal (why : string).
Arguments Fatal {A} why.

Definition M (A : Type) : Type :=
  TagBridge -> Result (A * TagBridge * list Effect).

Definition ret {A : Type} (a : A) : M A :=
  fun b => Ok (a, b, []).

Definition bind {A B : Type} (m : M A) (k : A -> M B) : M B :=
  fun b =>
    match m b with
    | Fatal w => Fatal w
    | Ok (a, b1, e1) =>
        match k a b1 with
        | Fatal w => Fatal w
        | Ok (r, b2, e2) => Ok (r, b2, e1 ++ e2)
        end
    end.

Notation "x <- m ;; k" := (bind m (fun x => k))
  (at level 61, m at next level, right associativity).
Notation "m ;; k" := (bind m (fun _ => k))
  (at level 61, right associativity).

Definition get : M TagBridge := fun b => Ok (b, b, []).

Definition modify (f : TagBridge -> TagBridge) : M unit :=
  fun b => Ok (tt, f b, []).

Definition emit (e : Effect) : M unit :=
  fun b => Ok (tt, b, [e]).

(** A failed [assert] ends the simulation. *)
Definition assertion (c : bool) (why : string) : M unit :=
  fun b => if c then Ok (tt, b, []) else Fatal why.

Definition when_ (c : bool) (m : M unit) : M unit :=
  if c then m else ret tt.

Definition fatal {A : Type} (why : string) : M A :=
  fun _ => Fatal why.

(** ** Methods of the two ports *)

Section Methods.

Context {sim : Simulator}.

(** [TagBridge::BridgeSlavePort::respQueueFull] *)
Definition respQueueFull (b : TagBridge) : bool :=
  outstandingResponses (slavePort b) =? respQueueLimit (slavePort b).

(** [TagBridge::BridgeMasterPort::reqQueueFull] *)
Definition reqQueueFull (b : TagBridge) : bool :=
  List.length (master_transmitList (masterPort b)) =? reqQueueLimit (masterPort b).

(** The test of [recvTimingReq], written the other way round in
    [schedTimingReq]. *)
Definition expectsResponse (p : Packet) : bool :=
  needsResponse p && negb (memInhibitAsserted p).

(** [TagBridge::BridgeMasterPort::schedTimingReq] *)
Definition MasterPort_schedTimingReq (p : Packet) (when : Tick) : M Packet :=
  let p1 :=
    if negb (memInhibitAsserted p) && needsResponse p
    then pushSenderState p (RequestState (getSrc p))
    else p in
  b <- get ;;
  when_ (match master_transmitList (masterPort b) with [] => true | _ => false end)
        (emit (Schedule MasterSendEvent when)) ;;
  assertion (negb (List.length (master_transmitList (masterPort b))
                   =? reqQueueLimit (masterPort b)))
            "transmitList.size() != reqQueueLimit" ;;
  modify (setMasterList
            (master_transmitList (masterPort b) ++ [mkDeferredPacket when p1])) ;;
  ret p1.

(** [TagBridge::BridgeSlavePort::recvTimingReq].  The boolean is the
    value returned to the sender, the packet is the sender's packet
    after the call. *)
Definition SlavePort_recvTimingReq (now : Tick) (p : Packet)
  : M (bool * Packet) :=
  b <- get ;;
  assertion (negb (retryReq (slavePort b))) "!retryReq" ;;
  if reqQueueFull b then
    modify (setRetryReq true) ;;
    ret (false, p)
  else
    when_ (expectsResponse p)
          (if respQueueFull b then
             modify (setRetryReq true)
           else
             assertion (negb (outstandingResponses (slavePort b)
                              =? respQueueLimit (slavePort b)))
                       "outstandingResponses != respQueueLimit" ;;
             modify (setOutstandingResponses
                       (S (outstandingResponses (slavePort b))))) ;;
    assertion (negb (hasDSid p)) "!pkt->hasDSid()" ;;
    let p1 := setDSid p (DSid b) in
    b1 <- get ;;
    if negb (retryReq (slavePort b1)) then
      p2 <- MasterPort_schedTimingReq
              (zeroWordDelays p1)
              (clockEdge now (slave_delay (slavePort b1))) ;;
      ret (true, p2)
    else
      ret (false, p1).

(** [TagBridge::BridgeSlavePort::retryStalledReq] *)
Definition SlavePort_retryStalledReq : M unit :=
  b <- get ;;
  when_ (retryReq (slavePort b))
        (modify (setRetryReq false) ;; emit SendRetry).

(** [TagBridge::BridgeSlavePort::schedTimingResp].  [popSenderState]
    on an empty stack and a top entry that is not a [RequestState] both
    end in a failed assertion. *)
Definition SlavePort_schedTimingResp (p : Packet) (when : Tick) : M Packet :=
  match senderState p with
  | RequestState origSrc :: rest =>
      let p1 := setDest (setSenderState p rest) origSrc in
      b <- get ;;
      when_ (match slave_transmitList (slavePort b) with [] => true | _ => false end)
            (emit (Schedule SlaveSendEvent when)) ;;
      modify (setSlaveList
                (slave_transmitList (slavePort b) ++ [mkDeferredPacket when p1])) ;;
      ret p1
  | _ => fatal "req_state != NULL"
  end.

(** [TagBridge::BridgeMasterPort::recvTimingResp] *)
Definition MasterPort_recvTimingResp (now : Tick) (p : Packet)
  : M (bool * Packet) :=
  b <- get ;;
  p1 <- SlavePort_schedTimingResp
          (zeroWordDelays p)
          (clockEdge now (master_delay (masterPort b))) ;;
  ret (true, p1).

(** [TagBridge::BridgeMasterPort::trySendTiming]; [accepted] is what
    [sendTimingReq] returns. *)
Definition MasterPort_trySendTiming (now : Tick) (accepted : bool) : M unit :=
  b <- get ;;
  match master_transmitList (masterPort b) with
  | [] => fatal "!transmitList.empty()"
  | req :: rest =>
      assertion (tick req <=? now) "req.tick <= curTick()" ;;
      emit (SendTimingReq (pkt req) accepted) ;;
      if accepted then
        modify (setMasterList rest) ;;
        match rest with
        | [] => ret tt
        | next_req :: _ =>
            emit (Schedule MasterSendEvent
                           (Nat.max (tick next_req) (clockEdge now 0)))
        end ;;
        SlavePort_retryStalledReq
      else
        ret tt
  end.

(** [TagBridge::BridgeSlavePort::trySendTiming]; [accepted] is what
    [sendTimingResp] returns. *)
Definition SlavePort_trySendTiming (now : Tick) (accepted : bool) : M unit :=
  b <- get ;;
  match slave_transmitList (slavePort b) with
  | [] => fatal "!transmitList.empty()"
  | resp :: rest =>
      assertion (tick resp <=? now) "resp.tick <= curTick()" ;;
      emit (SendTimingResp (pkt resp) accepted) ;;
      if accepted then
        modify (setSlaveList rest) ;;
        assertion (negb (outstandingResponses (slavePort b) =? 0))
                  "outstandingResponses != 0" ;;
        modify (setOutstandingResponses
                  (pred (outstandingResponses (slavePort b)))) ;;
        match rest with
        | [] => ret tt
        | next_resp :: _ =>
            emit (Schedule SlaveSendEvent
                           (Nat.max (tick next_resp) (clockEdge now 0)))
        end ;;
        b1 <- get ;;
        when_ (negb (reqQueueFull b1) && retryReq (slavePort b1))
              (modify (setRetryReq false) ;; emit SendRetry)
      else
        ret tt
  end.

(** [TagBridge::BridgeMasterPort::recvRetry] *)
Definition MasterPort_recvRetry (now : Tick) (accepted : bool) : M unit :=
  MasterPort_trySendTiming now accepted.

(** [TagBridge::BridgeSlavePort::recvRetry] *)
Definition SlavePort_recvRetry (now : Tick) (accepted : bool) : M unit :=
  SlavePort_trySendTiming now accepted.

(** [TagBridge::BridgeSlavePort::recvAtomic]; [downstream] is what
    [masterPort.sendAtomic(pkt)] returns. *)
Definition SlavePort_recvAtomic (p : Packet) (downstream : Tick)
  : M (Tick * Packet) :=
  b <- get ;;
  assertion (negb (hasDSid p)) "!pkt->hasDSid()" ;;
  let p1 := setDSid p (DSid b) in
  emit (SendAtomic p1) ;;
  ret (tickAdd (tickMul (slave_delay (slavePort b)) clockPeriod) downstream,
       p1).

(** The loop of [TagBridge::BridgeMasterPort::checkFunctional] over
    the request queue, stopping at the first hit. *)
Fixpoint MasterPort_checkFunctional_loop (p : Packet) (l : list DeferredPacket)
  : M (bool * Packet) :=
  match l with
  | [] => ret (false, p)
  | i :: l' =>
      emit (CheckFunctional p (pkt i)) ;;
      if pktCheckFunctional p (pkt i)
      then ret (true, makeResponse p)
      else MasterPort_checkFunctional_loop p l'
  end.

(** [TagBridge::BridgeMasterPort::checkFunctional] *)
Definition MasterPort_checkFunctional (p : Packet) : M (bool * Packet) :=
  b <- get ;;
  MasterPort_checkFunctional_loop p (master_transmitList (masterPort b)).

(** The first loop of [recvFunctional], over the response queue. *)
Fixpoint SlavePort_checkResponseQueue (p : Packet) (l : list DeferredPacket)
  : M (bool * Packet) :=
  match l with
  | [] => ret (false, p)
  | i :: l' =>
      emit (CheckFunctional p (pkt i)) ;;
      if pktCheckFunctional p (pkt i)
      then ret (true, makeResponse p)
      else SlavePort_checkResponseQueue p l'
  end.

(** [TagBridge::BridgeSlavePort::recvFunctional] *)
Definition SlavePort_recvFunctional (p : Packet) : M Packet :=
  b <- get ;;
  let p0 := pushLabel p (slave_name (slavePort b)) in
  assertion (negb (hasDSid p0)) "!pkt->hasDSid()" ;;
  let p1 := setDSid p0 (DSid b) in
  r <- SlavePort_checkResponseQueue p1 (slave_transmitList (slavePort b)) ;;
  if fst r then ret (snd r)
  else
    r' <- MasterPort_checkFunctional (snd r) ;;
    if fst r' then ret (snd r')
    else
      let p2 := popLabel (snd r') in
      emit (SendFunctional p2) ;;
      ret p2.

(** ** Runs of the bridge *)

(** The entry points the simulator and the two peers call.  The
    [sendEvent] of a port and its [recvRetry] both run [trySendTiming];
    the boolean is the answer of the peer to the send. *)
Inductive Call : Type :=
| RecvTimingReq (now : Tick) (p : Packet)
| RecvTimingResp (now : Tick) (p : Packet)
| MasterTrySend (now : Tick) (accepted : bool)
| SlaveTrySend (now : Tick) (accepted : bool)
| RecvAtomic (p : Packet) (downstream : Tick)
| RecvFunctional (p : Packet).

Inductive Reply : Type :=
| ReplyTiming (ok : bool) (p : Packet)
| ReplyDone
| ReplyAtomic (latency : Tick) (p : Packet)
| ReplyFunctional (p : Packet).

Definition dispatch (c : Call) : M Reply :=
  match c with
  | RecvTimingReq now p =>
      r <- SlavePort_recvTimingReq now p ;; ret (ReplyTiming (fst r) (snd r))
  | RecvTimingResp now p =>
      r <- MasterPort_recvTimingResp now p ;; ret (ReplyTiming (fst r) (snd r))
  | MasterTrySend now a => MasterPort_trySendTiming now a ;; ret ReplyDone
  | SlaveTrySend now a => SlavePort_trySendTiming now a ;; ret ReplyDone
  | RecvAtomic p d =>
      r <- SlavePort_recvAtomic p d ;; ret (ReplyAtomic (fst r) (snd r))
  | RecvFunctional p =>
      r <- SlavePort_recvFunctional p ;; ret (ReplyFunctional r)
  end.

(** One entry of the history of a run. *)
Record Step : Type := mkStep {
  call : Call;
  reply : Reply;
  effects : list Effect
}.

(** Run the calls in order from [b]; a failed assertion ends the run. *)
Fixpoint run (cs : list Call) (b : TagBridge) : Result (TagBridge * list Step) :=
  match cs with
  | [] => Ok (b, [])
  | c :: cs' =>
      match dispatch c b with
      | Fatal w => Fatal w
      | Ok (r, b1, e) =>
          match run cs' b1 with
          | Fatal w => Fatal w
          | Ok (b2, h) => Ok (b2, mkStep c r e :: h)
          end
      end
  end.

End Methods.

(** ** Reading a history *)

(** Why [recvTimingReq] turns a request away, following its branches. *)
Inductive Refusal : Type := RequestQueueFull | ResponseSlotUnavailable.

Section Histories.

Context {sim : Simulator}.

Definition refusalCause (b : TagBridge) (p : Packet) : option Refusal :=
  if reqQueueFull b then Some RequestQueueFull
  else if expectsResponse p && respQueueFull b then Some ResponseSlotUnavailable
  else None.

(** The invariant of the two counters. *)
Definition withinLimits (b : TagBridge) : Prop :=
  outstandingResponses (slavePort b) <= respQueueLimit (slavePort b) /\
  List.length (master_transmitList (masterPort b)) <= reqQueueLimit (masterPort b).

(** States a freshly built bridge can be in after some calls. *)
Definition reachable (P : Params) (b : TagBridge) : Prop :=
  exists cs h, run cs (newTagBridge P) = Ok (b, h).

(** Requests taken by the slave port, as queued on the master port. *)
Definition acceptedReq (s : Step) : list Packet :=
  match call s, reply s with
  | RecvTimingReq _ _, ReplyTiming true p => [p]
  | _, _ => []
  end.

(** Responses taken by the master port, as queued on the slave port. *)
Definition acceptedResp (s : Step) : list Packet :=
  match call s, reply s with
  | RecvTimingResp _ _, ReplyTiming true p => [p]
  | _, _ => []
  end.

Definition departedReq (e : Effect) : list Packet :=
  match e with SendTimingReq p true => [p] | _ => [] end.

Definition departedResp (e : Effect) : list Packet :=
  match e with SendTimingResp p true => [p] | _ => [] end.

Definition acceptedReqs (h : list Step) : list Packet := flat_map acceptedReq h.
Definition acceptedResps (h : list Step) : list Packet := flat_map acceptedResp h.
Definition departedReqs (h : list Step) : list Packet :=
  flat_map (fun s => flat_map departedReq (effects s)) h.
Definition departedResps (h : list Step) : list Packet :=
  flat_map (fun s => flat_map departedResp (effects s)) h.

(** Response slots reserved along a history: one for each accepted
    request that expects a response. *)
Definition reservations (h : list Step) : nat :=
  List.length (filter expectsResponse (acceptedReqs h)).

Definition isSendRetry (e : Effect) : bool :=
  match e with SendRetry => true | _ => false end.

Definition isSendFunctional (e : Effect) : bool :=
  match e with SendFunctional _ => true | _ => false end.

(** The packets a functional probe is checked against: the queue up to
    and including the first hit. *)
Fixpoint scanned (probe : Packet) (q : list Packet) : list Packet :=
  match q with
  | [] => []
  | x :: q' => x :: (if pktCheckFunctional probe x then [] else scanned probe q')
  end.

(** The request as [recvTimingReq] hands it on and [schedTimingReq]
    queues it: tagged, timing hints zeroed, and carrying the sidecar
    when a response is expected. *)
Definition forwardedReq (b : TagBridge) (p : Packet) : Packet :=
  let p1 := zeroWordDelays (setDSid p (DSid b)) in
  if expectsResponse p then pushSenderState p1 (RequestState (getSrc p)) else p1.

(** The rescheduling a port does after a successful send. *)
Definition nextSend (ev : SendEvent) (now : Tick) (rest : list DeferredPacket)
  : list Effect :=
  match rest with
  | [] => []
  | next :: _ => [Schedule ev (Nat.max (tick next) (clockEdge now 0))]
  end.

(** Every packet in flight inside the bridge, in the order
    [recvFunctional] looks at them: the response queue of the slave
    port, then the request queue of the master port. *)
Definition pendingPackets (b : TagBridge) : list Packet :=
  map pkt (slave_transmitList (slavePort b))
    ++ map pkt (master_transmitList (masterPort b)).

(** A functional probe once labelled and tagged. *)
Definition taggedProbe (b : TagBridge) (p : Packet) : Packet :=
  setDSid (pushLabel p (slave_name (slavePort b))) (DSid b).

(** Number of [RequestState] entries on the sender-state stack. *)
Definition sidecars (p : Packet) : nat :=
  List.length (filter (fun s => match s with RequestState _ => true | _ => false end)
                      (senderState p)).

End Histories.

(** ** A small configuration to run the model on *)

(** A clock of period 10 whose edges are the multiples of the period,
    and a functional check that compares addresses. *)
Definition demoSim : Simulator :=
  {| clockPeriod := 10;
     clockEdge := fun now c => ((now + 9) / 10) * 10 + c * 10;
     pktCheckFunctional := fun p q => getAddr p =? getAddr q |}.

Definition demoParams : Params := mkParams "bridge" 2 1 2 7.

(** A read-like request from port 3, untagged. *)
Definition reqA : Packet :=
  mkPacket 64 true false 3%Z 0%Z [] None 5 6 [] false.

Definition reqB : Packet :=
  mkPacket 128 true false 4%Z 0%Z [] None 1 1 [] false.

(** A request that expects no response. *)
Definition reqW : Packet :=
  mkPacket 192 false false 3%Z 0%Z [] None 0 0 [] false.

(** A request with the inhibit flag asserted. *)
Definition reqI : Packet :=
  mkPacket 256 true true 3%Z 0%Z [] None 0 0 [] false.

(** What a downstream agent may hand back for a forwarded request: a
    response with its own source and destination, and the sender-state
    stack of the request. *)
Definition demoResponse (fwd : Packet) (newSrc newDest : PortID) : Packet :=
  mkPacket (getAddr fwd) false false newSrc newDest (senderState fwd)
           (getDSid fwd) 3 4 [] true.

(** [reqA] as the bridge of [demoParams] forwards it, and a response
    to it. *)
Definition fwdA : Packet := forwardedReq (newTagBridge demoParams) reqA.
Definition respA : Packet := demoResponse fwdA 9%Z 1%Z.

(** [reqB] as the sender sees it once it has been turned away for want
    of a response slot. *)
Definition reqB_refused : Packet := setDSid reqB (p_DSid demoParams).

(** A functional probe for the address of [reqA]. *)
Definition probeA : Packet :=
  mkPacket 64 true false 5%Z 0%Z [] None 0 0 [] false.

(** [reqA] goes in and out again downstream, its response comes back
    and leaves upstream. *)
Definition roundTripCalls : list Call :=
  [RecvTimingReq 0 reqA; MasterTrySend 20 true;
   RecvTimingResp 40 respA; SlaveTrySend 60 true].

(** [reqA] becomes ready at tick 20 but the downstream agent only takes
    it at tick 50; [reqW], accepted later, is ready at tick 30. *)
Definition lateDepartureCalls : list Call :=
  [RecvTimingReq 0 reqA; RecvTimingReq 5 reqW;
   MasterTrySend 20 false; MasterTrySend 50 true; MasterTrySend 50 true].

(** [reqA] holds the only response slot of [demoParams] when [reqB]
    is offered; the response to [reqA] is back but has not left yet. *)
Definition stalledCalls : list Call :=
  [RecvTimingReq 0 reqA; MasterTrySend 20 true; RecvTimingReq 21 reqB;
   RecvTimingResp 40 respA].

(** A clock of period one tick, a port delay of one cycle, and the
    largest latency a downstream agent can report. *)
Definition unitClockSim : Simulator :=
  {| clockPeriod := 1;
     clockEdge := fun now c => now + c;
     pktCheckFunctional := fun p q => getAddr p =? getAddr q |}.

Definition unitDelayParams : Params := mkParams "bridge" 1 1 2 7.

Definition maxTick : Tick := N.to_nat (tickModulus - 1).

(** The bridge of [demoParams] after the calls [cs]. *)
Definition bridgeAfter (cs : list Call) : TagBridge :=
  match run (sim := demoSim) cs (newTagBridge demoParams) with
  | Ok (b, _) => b
  | Fatal _ => newTagBridge demoParams
  end.

(** The only response slot is taken by [reqA], still queued. *)
Definition slotTakenBridge : TagBridge := bridgeAfter [RecvTimingReq 0 reqA].

(** The response to [reqA] waits in the response queue. *)
Definition pendingResponseBridge : TagBridge :=
  bridgeAfter [RecvTimingReq 0 reqA; MasterTrySend 20 true;
               RecvTimingResp 40 respA].

(** ** Refusals, retries and what leaves the bridge *)

(** A request turned away by [recvTimingReq]. *)
Definition refusedReq (s : Step) : nat :=
  match call s, reply s with
  | RecvTimingReq _ _, ReplyTiming false _ => 1
  | _, _ => 0
  end.

Definition refusals (h : list Step) : nat := list_sum (map refusedReq h).

(** Calls of [sendRetry] along a history. *)
Definition retries (h : list Step) : nat :=
  List.length (filter isSendRetry (flat_map effects h)).

(** The packet of a call on the downstream agent, in any of the three
    modes, whether a timed send was taken or not. *)
Definition sentDownstream (e : Effect) : list Packet :=
  match e with
  | SendTimingReq p _ => [p]
  | SendAtomic p => [p]
  | SendFunctional p => [p]
  | _ => []
  end.

(** The packet of a timed send, in either direction. *)
Definition sentTimed (e : Effect) : list Packet :=
  match e with
  | SendTimingReq p _ => [p]
  | SendTimingResp p _ => [p]
  | _ => []
  end.

Definition wordDelaysZero (p : Packet) : Prop :=
  firstWordDelay p = 0 /\ lastWordDelay p = 0.

(** Calls that go through the queues, as opposed to atomic and
    functional accesses. *)
Definition isTimingCall (c : Call) : bool :=
  match c with
  | RecvAtomic _ _ | RecvFunctional _ => false
  | _ => true
  end.

(** A send attempt that the peer turns down. *)
Definition isRejectedSend (c : Call) : bool :=
  match c with
  | MasterTrySend _ false | SlaveTrySend _ false => true
  | _ => false
  end.

(** ** The caller's side of [trySendTiming]

    [trySendTiming] runs when the [sendEvent] of the port fires or when
    the peer calls [recvRetry] after turning a packet down.  What a port
    is waiting for is not stored in the bridge; it can be read off the
    calls the bridge makes. *)
Inductive SendMode : Type :=
| NoSend
| EventAt (t : Tick)
| RetryOwed (since : Tick).

Record Waiting : Type := mkWaiting {
  masterMode : SendMode;
  slaveMode : SendMode
}.

Definition nothingPending : Waiting := mkWaiting NoSend NoSend.

(** The event is due, or the peer turned a packet down earlier. *)
Definition modeReady (m : SendMode) (now : Tick) : bool :=
  match m with
  | NoSend => false
  | EventAt t => t <=? now
  | RetryOwed since => since <=? now
  end.

(** What the simulator and the peers owe the bridge: they run
    [trySendTiming] of a port only for a due event or an owed retry. *)
Definition legalCall (w : Waiting) (c : Call) : bool :=
  match c with
  | MasterTrySend now _ => modeReady (masterMode w) now
  | SlaveTrySend now _ => modeReady (slaveMode w) now
  | _ => true
  end.

(** Firing the event or delivering the retry uses it up. *)
Definition enterCall (w : Waiting) (c : Call) : Waiting :=
  match c with
  | MasterTrySend _ _ => mkWaiting NoSend (slaveMode w)
  | SlaveTrySend _ _ => mkWaiting (masterMode w) NoSend
  | _ => w
  end.

Definition callTick (c : Call) : Tick :=
  match c with
  | RecvTimingReq now _ | RecvTimingResp now _
  | MasterTrySend now _ | SlaveTrySend now _ => now
  | RecvAtomic _ _ | RecvFunctional _ => 0
  end.

(** The effect of one call of the bridge on what its ports wait for.
    Scheduling the event of a port that already waits for its event or
    for a retry has no answer. *)
Definition observe (now : Tick) (w : Waiting) (e : Effect) : option Waiting :=
  match e with
  | Schedule MasterSendEvent t =>
      match masterMode w with
      | NoSend => Some (mkWaiting (EventAt t) (slaveMode w))
      | _ => None
      end
  | Schedule SlaveSendEvent t =>
      match slaveMode w with
      | NoSend => Some (mkWaiting (masterMode w) (EventAt t))
      | _ => None
      end
  | SendTimingReq _ false => Some (mkWaiting (RetryOwed now) (slaveMode w))
  | SendTimingResp _ false => Some (mkWaiting (masterMode w) (RetryOwed now))
  | _ => Some w
  end.

Fixpoint observeAll (now : Tick) (w : Waiting) (es : list Effect)
  : option Waiting :=
  match es with
  | [] => Some w
  | e :: es' =>
      match observe now w e with
      | Some w' => observeAll now w' es'
      | None => None
      end
  end.

Inductive Verdict : Type :=
| Tracked (w : Waiting)
| CallerFault
| BridgeFault.

(** Follow a history: stop at the first call the caller had no right
    to make, or at the first scheduling the bridge had no right to
    make. *)
Fixpoint track (w : Waiting) (h : list Step) : Verdict :=
  match h with
  | [] => Tracked w
  | s :: h' =>
      if legalCall w (call s) then
        match observeAll (callTick (call s)) (enterCall w (call s)) (effects s) with
        | Some w' => track w' h'
        | None => BridgeFault
        end
      else CallerFault
  end.

(** A port waits for nothing exactly when its queue is empty, and what
    it waits for comes no earlier than the head of the queue is ready. *)
Definition modeFits (m : SendMode) (q : list DeferredPacket) : Prop :=
  match m, q with
  | NoSend, [] => True
  | EventAt t, d :: _ => tick d <= t
  | RetryOwed since, d :: _ => tick d <= since
  | _, _ => False
  end.

Definition inSync (b : TagBridge) (w : Waiting) : Prop :=
  modeFits (masterMode w) (master_transmitList (masterPort b)) /\
  modeFits (slaveMode w) (slave_transmitList (slavePort b)).

(** Every queued request carries the tag of the bridge, and every
    queued packet has its timing hints at zero. *)
Definition queuesClean (b : TagBridge) : Prop :=
  Forall (fun p => getDSid p = Some (DSid b))
         (map pkt (master_transmitList (masterPort b))) /\
  Forall wordDelaysZero (map pkt (master_transmitList (masterPort b))) /\
  Forall wordDelaysZero (map pkt (slave_transmitList (slavePort b))).

(** A request that expects a response has, on top of its sender-state
    stack, a sidecar holding its own source. *)
Definition sidecarOnTop (p : Packet) : Prop :=
  expectsResponse p = true ->
  exists rest, senderState p = RequestState (getSrc p) :: rest.

(** The construction-time settings held by the two ports and the
    bridge. *)
Definition sameSettings (b b' : TagBridge) : Prop :=
  slave_name (slavePort b') = slave_name (slavePort b) /\
  slave_delay (slavePort b') = slave_delay (slavePort b) /\
  respQueueLimit (slavePort b') = respQueueLimit (slavePort b) /\
  master_delay (masterPort b') = master_delay (masterPort b) /\
  reqQueueLimit (masterPort b') = reqQueueLimit (masterPort b) /\
  DSid b' = DSid b.

(** What holds for good of a bridge whose request queue has size
    zero, and of one whose response queue has size zero. *)
Definition neverQueues (b : TagBridge) : Prop :=
  master_transmitList (masterPort b) = [] /\
  outstandingResponses (slavePort b) = 0 /\
  reqQueueLimit (masterPort b) = 0.


(** A bridge that can queue no request, and one that can hold no
    response. *)
Definition noReqParams : Params := mkParams "bridge" 2 1 0 7.

(** The history of the calls [cs] on the bridge of [demoParams]. *)
Definition historyAfter (cs : list Call) : list Step :=
  match run (sim := demoSim) cs (newTagBridge demoParams) with
  | Ok (_, h) => h
  | Fatal _ => []
  end.

(** [reqA] is sent downstream, [reqW] is turned down once by the
    downstream agent and waits for its retry. *)
Definition waitingCalls : list Call :=
  [RecvTimingReq 0 reqA; RecvTimingReq 5 reqW;
   MasterTrySend 20 true; MasterTrySend 30 false].

(** A run with an atomic and a functional access in between. *)
Definition mixedCalls : list Call :=
  [RecvTimingReq 0 reqA; RecvAtomic reqB 11; MasterTrySend 20 true;
   RecvFunctional probeA; RecvTimingResp 40 respA].

(** * Properties *)

Section Properties.

Context {sim : Simulator}.

(** ** Each method in closed form *)

Ltac unfold_monad :=
  cbv [bind ret get modify emit assertion when_ fatal].

Lemma retryStalledReq_cases b :
  SlavePort_retryStalledReq b =
  Ok (tt, if retryReq (slavePort b) then setRetryReq false b else b,
      if retryReq (slavePort b) then [SendRetry] else []).
Proof.
  unfold SlavePort_retryStalledReq. unfold_monad.
  destruct (retryReq (slavePort b)); reflexivity.
Qed.

Lemma MasterPort_trySendTiming_cases now a b :
  MasterPort_trySendTiming now a b =
  match master_transmitList (masterPort b) with
  | [] => Fatal "!transmitList.empty()"
  | req :: rest =>
      if tick req <=? now then
        if a then
          Ok (tt,
              (if retryReq (slavePort b) then setRetryReq false else (fun x => x))
                (setMasterList rest b),
              SendTimingReq (pkt req) true
                :: nextSend MasterSendEvent now rest
                ++ (if retryReq (slavePort b) then [SendRetry] else []))
        else Ok (tt, b, [SendTimingReq (pkt req) false])
      else Fatal "req.tick <= curTick()"
  end.
Proof.
  unfold MasterPort_trySendTiming, SlavePort_retryStalledReq. unfold_monad.
  destruct (master_transmitList (masterPort b)) as [|req rest]; [reflexivity|].
  destruct (tick req <=? now); [|reflexivity].
  destruct a; [|reflexivity].
  destruct rest; simpl; destruct (retryReq (slavePort b)); reflexivity.
Qed.

Lemma SlavePort_trySendTiming_cases now a b :
  SlavePort_trySendTiming now a b =
  match slave_transmitList (slavePort b) with
  | [] => Fatal "!transmitList.empty()"
  | resp :: rest =>
      if tick resp <=? now then
        if a then
          if outstandingResponses (slavePort b) =? 0
          then Fatal "outstandingResponses != 0"
          else
            let fire := negb (reqQueueFull b) && retryReq (slavePort b) in
            Ok (tt,
                (if fire then setRetryReq false else (fun x => x))
                  (setOutstandingResponses (pred (outstandingResponses (slavePort b)))
                     (setSlaveList rest b)),
                SendTimingResp (pkt resp) true
                  :: nextSend SlaveSendEvent now rest
                  ++ (if fire then [SendRetry] else []))
        else Ok (tt, b, [SendTimingResp (pkt resp) false])
      else Fatal "resp.tick <= curTick()"
  end.
Proof.
  unfold SlavePort_trySendTiming. unfold_monad.
  destruct (slave_transmitList (slavePort b)) as [|resp rest]; [reflexivity|].
  destruct (tick resp <=? now); [|reflexivity].
  destruct a; [|reflexivity].
  destruct (outstandingResponses (slavePort b) =? 0); [reflexivity|].
  unfold reqQueueFull.
  destruct rest; simpl;
    destruct (List.length (master_transmitList (masterPort b)) =? reqQueueLimit (masterPort b));
    destruct (retryReq (slavePort b)); reflexivity.
Qed.

Lemma schedTimingResp_cases p when b :
  SlavePort_schedTimingResp p when b =
  match senderState p with
  | RequestState origSrc :: rest =>
      let p1 := setDest (setSenderState p rest) origSrc in
      let q := slave_transmitList (slavePort b) in
      Ok (p1, setSlaveList (q ++ [mkDeferredPacket when p1]) b,
          match q with [] => [Schedule SlaveSendEvent when] | _ => [] end)
  | _ => Fatal "req_state != NULL"
  end.
Proof.
  unfold SlavePort_schedTimingResp. unfold_monad.
  destruct (senderState p) as [|[s|o] rest]; try reflexivity.
  destruct (slave_transmitList (slavePort b)); reflexivity.
Qed.

Lemma recvTimingResp_cases now p b :
  MasterPort_recvTimingResp now p b =
  match senderState p with
  | RequestState origSrc :: rest =>
      let when := clockEdge now (master_delay (masterPort b)) in
      let p1 := setDest (setSenderState (zeroWordDelays p) rest) origSrc in
      let q := slave_transmitList (slavePort b) in
      Ok ((true, p1), setSlaveList (q ++ [mkDeferredPacket when p1]) b,
          match q with [] => [Schedule SlaveSendEvent when] | _ => [] end)
  | _ => Fatal "req_state != NULL"
  end.
Proof.
  unfold MasterPort_recvTimingResp.
  unfold bind at 1. unfold get at 1. unfold bind at 1.
  rewrite schedTimingResp_cases. simpl.
  destruct (senderState p) as [|[s|o] rest]; try reflexivity.
  simpl. rewrite app_nil_r. reflexivity.
Qed.

Lemma recvAtomic_cases p d b :
  SlavePort_recvAtomic p d b =
  if hasDSid p then Fatal "!pkt->hasDSid()"
  else Ok ((tickAdd (tickMul (slave_delay (slavePort b)) clockPeriod) d,
            setDSid p (DSid b)),
           b, [SendAtomic (setDSid p (DSid b))]).
Proof.
  unfold SlavePort_recvAtomic. unfold_monad.
  destruct (hasDSid p); reflexivity.
Qed.

Lemma checkFunctional_loop_cases p l b :
  MasterPort_checkFunctional_loop p l b =
  Ok ((existsb (pktCheckFunctional p) (map pkt l),
       if existsb (pktCheckFunctional p) (map pkt l) then makeResponse p else p),
      b, map (CheckFunctional p) (scanned p (map pkt l))).
Proof.
  induction l as [|i l IH]; simpl; [reflexivity|].
  unfold bind, emit. fold (@bind unit).
  destruct (pktCheckFunctional p (pkt i)) eqn:E; simpl.
  - reflexivity.
  - rewrite IH. reflexivity.
Qed.

Lemma checkResponseQueue_cases p l b :
  SlavePort_checkResponseQueue p l b =
  Ok ((existsb (pktCheckFunctional p) (map pkt l),
       if existsb (pktCheckFunctional p) (map pkt l) then makeResponse p else p),
      b, map (CheckFunctional p) (scanned p (map pkt l))).
Proof.
  induction l as [|i l IH]; simpl; [reflexivity|].
  unfold bind, emit.
  destruct (pktCheckFunctional p (pkt i)) eqn:E; simpl.
  - reflexivity.
  - rewrite IH. reflexivity.
Qed.

Lemma scanned_app p q1 q2 :
  scanned p (q1 ++ q2) =
  scanned p q1 ++ (if existsb (pktCheckFunctional p) q1 then [] else scanned p q2).
Proof.
  induction q1 as [|x q1 IH]; simpl; [reflexivity|].
  destruct (pktCheckFunctional p x); simpl; [reflexivity|].
  rewrite IH. reflexivity.
Qed.

Lemma scanned_miss p q :
  existsb (pktCheckFunctional p) q = false -> scanned p q = q.
Proof.
  induction q as [|x q IH]; simpl; [reflexivity|].
  destruct (pktCheckFunctional p x); simpl; [discriminate|].
  intros H. rewrite IH by assumption. reflexivity.
Qed.

Lemma recvFunctional_cases p b :
  SlavePort_recvFunctional p b =
  if hasDSid p then Fatal "!pkt->hasDSid()"
  else
    let probe := taggedProbe b p in
    if existsb (pktCheckFunctional probe) (pendingPackets b)
    then Ok (makeResponse probe, b,
             map (CheckFunctional probe) (scanned probe (pendingPackets b)))
    else Ok (popLabel probe, b,
             map (CheckFunctional probe) (pendingPackets b)
               ++ [SendFunctional (popLabel probe)]).
Proof.
  unfold SlavePort_recvFunctional, MasterPort_checkFunctional, pendingPackets, taggedProbe.
  unfold bind at 1. unfold get at 1. 
  unfold bind at 1. unfold assertion.
  change (hasDSid (pushLabel p (slave_name (slavePort b)))) with (hasDSid p).
  destruct (hasDSid p); simpl; [reflexivity|].
  set (probe := setDSid _ _).
  unfold bind at 1. rewrite checkResponseQueue_cases.
  rewrite existsb_app, scanned_app, map_app.
  destruct (existsb (pktCheckFunctional probe) (map pkt (slave_transmitList (slavePort b)))) eqn:E1; simpl.
  - unfold ret. rewrite !app_nil_r. reflexivity.
  - unfold bind, get. rewrite checkFunctional_loop_cases.
    destruct (existsb (pktCheckFunctional probe) (map pkt (master_transmitList (masterPort b)))) eqn:E2; simpl.
    + unfold ret. rewrite !app_nil_r. reflexivity.
    + unfold ret, emit. simpl.
      rewrite !scanned_miss by assumption. rewrite ?map_app, ?app_nil_r, <- ?app_assoc. reflexivity.
Qed.

Lemma recvTimingReq_cases now p b :
  SlavePort_recvTimingReq now p b =
  if retryReq (slavePort b) then Fatal "!retryReq"
  else if reqQueueFull b then Ok ((false, p), setRetryReq true b, [])
  else if expectsResponse p && respQueueFull b then
    if hasDSid p then Fatal "!pkt->hasDSid()"
    else Ok ((false, setDSid p (DSid b)), setRetryReq true b, [])
  else if hasDSid p then Fatal "!pkt->hasDSid()"
  else
    let when := clockEdge now (slave_delay (slavePort b)) in
    let q := master_transmitList (masterPort b) in
    Ok ((true, forwardedReq b p),
        setMasterList (q ++ [mkDeferredPacket when (forwardedReq b p)])
          (if expectsResponse p
           then setOutstandingResponses (S (outstandingResponses (slavePort b))) b
           else b),
        match q with [] => [Schedule MasterSendEvent when] | _ => [] end).
Proof.
  unfold SlavePort_recvTimingReq, MasterPort_schedTimingReq, forwardedReq.
  unfold_monad.
  destruct (retryReq (slavePort b)) eqn:Hr; simpl; [reflexivity|].
  destruct (reqQueueFull b) eqn:Hq; simpl; [reflexivity|].
  unfold expectsResponse.
  destruct (needsResponse p) eqn:Hn, (memInhibitAsserted p) eqn:Hi; simpl.
  all: try destruct (respQueueFull b) eqn:Hf; simpl.
  all: destruct (hasDSid p) eqn:Ht; simpl; try reflexivity.
  all: unfold respQueueFull in *; try rewrite Hf; simpl; try rewrite Hr; simpl.
  all: unfold reqQueueFull in Hq; simpl; try rewrite Hq; simpl.
  all: try rewrite Hi; try rewrite Hn; simpl.
  all: destruct (master_transmitList (masterPort b)); simpl; try reflexivity.
Qed.

Lemma bind_ret_map (A B : Type) (m : M A) (f : A -> B) b :
  bind m (fun a => ret (f a)) b =
  match m b with
  | Fatal w => Fatal w
  | Ok (a, b1, e) => Ok (f a, b1, e)
  end.
Proof.
  unfold bind, ret. destruct (m b) as [[[a b1] e]|w]; [|reflexivity].
  rewrite app_nil_r. reflexivity.
Qed.

Lemma departedReq_nextSend ev now rest : flat_map departedReq (nextSend ev now rest) = [].
Proof. destruct rest; reflexivity. Qed.

Lemma departedResp_nextSend ev now rest : flat_map departedResp (nextSend ev now rest) = [].
Proof. destruct rest; reflexivity. Qed.

Lemma departedReq_checks p l : flat_map departedReq (map (CheckFunctional p) l) = [].
Proof. induction l; simpl; auto. Qed.

Lemma departedResp_checks p l : flat_map departedResp (map (CheckFunctional p) l) = [].
Proof. induction l; simpl; auto. Qed.

Ltac split_step H :=
  repeat match type of H with
  | context [retryReq ?s] => destruct (retryReq s) eqn:?
  | context [reqQueueFull ?b] => destruct (reqQueueFull b) eqn:?
  | context [expectsResponse ?p] => destruct (expectsResponse p) eqn:?
  | context [respQueueFull ?b] => destruct (respQueueFull b) eqn:?
  | context [hasDSid ?p] => destruct (hasDSid p) eqn:?
  | context [master_transmitList ?m] => destruct (master_transmitList m) eqn:?
  | context [slave_transmitList ?m] => destruct (slave_transmitList m) eqn:?
  | context [senderState ?p] => destruct (senderState p) as [|[?|?] ?] eqn:?
  | context [existsb ?f ?l] => destruct (existsb f l) eqn:?
  | context [?x <=? ?y] => destruct (x <=? y) eqn:?
  | context [?x =? ?y] => destruct (x =? y) eqn:?
  | context [if ?a then _ else _] => is_var a; destruct a
  end; simpl in H; try discriminate H.

Ltac step_cases H :=
  match type of H with
  | dispatch ?c ?b = _ =>
      destruct c; unfold dispatch in H; rewrite bind_ret_map in H;
      rewrite ?recvTimingReq_cases, ?recvTimingResp_cases,
        ?MasterPort_trySendTiming_cases, ?SlavePort_trySendTiming_cases,
        ?recvAtomic_cases, ?recvFunctional_cases in H;
      cbv zeta in H
  end.

Lemma dispatch_limits c b r b' e :
  dispatch c b = Ok (r, b', e) ->
  respQueueLimit (slavePort b') = respQueueLimit (slavePort b) /\
  reqQueueLimit (masterPort b') = reqQueueLimit (masterPort b) /\
  DSid b' = DSid b.
Proof.
  intros H. step_cases H.
  all: split_step H.
  all: inversion H; subst; clear H; simpl; auto.
Qed.

Lemma expectsResponse_forwardedReq b p :
  expectsResponse (forwardedReq b p) = expectsResponse p.
Proof. unfold forwardedReq. destruct (expectsResponse p) eqn:E; exact E. Qed.

Lemma dispatch_withinLimits c b r b' e :
  withinLimits b -> dispatch c b = Ok (r, b', e) -> withinLimits b'.
Proof.
  unfold withinLimits. intros [Hs Hm] H. step_cases H.
  all: split_step H.
  all: inversion H; subst; clear H; simpl in *.
  all: unfold respQueueFull, reqQueueFull in *.
  all: repeat match goal with
         | E : (_ =? _) = true |- _ => apply Nat.eqb_eq in E
         | E : (_ =? _) = false |- _ => apply Nat.eqb_neq in E
         | E : master_transmitList _ = _ |- _ => rewrite E in *
         end.
  all: simpl in *; rewrite ?length_app in *; simpl in *; try lia.
Qed.

Lemma dispatch_outstanding c b r b' e :
  dispatch c b = Ok (r, b', e) ->
  outstandingResponses (slavePort b') + List.length (flat_map departedResp e) =
  outstandingResponses (slavePort b)
    + List.length (filter expectsResponse (acceptedReq (mkStep c r e))).
Proof.
  intros H. step_cases H.
  all: split_step H.
  all: inversion H; subst; clear H; simpl.
  all: rewrite ?expectsResponse_forwardedReq.
  all: rewrite ?flat_map_app, ?departedResp_nextSend, ?departedResp_checks; simpl.
  all: repeat match goal with E : expectsResponse _ = _ |- _ => rewrite E end; simpl.
  all: repeat match goal with
         | E : (_ =? _) = false |- _ => apply Nat.eqb_neq in E
         end.
  all: try lia.
Qed.

Lemma dispatch_fifo_req c b r b' e :
  dispatch c b = Ok (r, b', e) ->
  map pkt (master_transmitList (masterPort b)) ++ acceptedReq (mkStep c r e) =
  flat_map departedReq e ++ map pkt (master_transmitList (masterPort b')).
Proof.
  intros H. step_cases H.
  all: split_step H.
  all: inversion H; subst; clear H; simpl.
  all: rewrite ?flat_map_app, ?departedReq_nextSend, ?departedReq_checks; simpl.
  all: repeat match goal with E : master_transmitList _ = _ |- _ => rewrite E end; simpl.
  all: rewrite ?map_app, ?app_nil_r; simpl; try reflexivity.
Qed.

Lemma dispatch_fifo_resp c b r b' e :
  dispatch c b = Ok (r, b', e) ->
  map pkt (slave_transmitList (slavePort b)) ++ acceptedResp (mkStep c r e) =
  flat_map departedResp e ++ map pkt (slave_transmitList (slavePort b')).
Proof.
  intros H. step_cases H.
  all: split_step H.
  all: inversion H; subst; clear H; simpl.
  all: rewrite ?flat_map_app, ?departedResp_nextSend, ?departedResp_checks; simpl.
  all: repeat match goal with E : slave_transmitList _ = _ |- _ => rewrite E end; simpl.
  all: rewrite ?map_app, ?app_nil_r; simpl; try reflexivity.
Qed.

Lemma schedTimingReq_cases p when b :
  MasterPort_schedTimingReq p when b =
  let p1 := if expectsResponse p
            then pushSenderState p (RequestState (getSrc p)) else p in
  let q := master_transmitList (masterPort b) in
  if List.length q =? reqQueueLimit (masterPort b)
  then Fatal "transmitList.size() != reqQueueLimit"
  else Ok (p1, setMasterList (q ++ [mkDeferredPacket when p1]) b,
           match q with [] => [Schedule MasterSendEvent when] | _ => [] end).
Proof.
  unfold MasterPort_schedTimingReq, expectsResponse. unfold_monad.
  rewrite (andb_comm (negb (memInhibitAsserted p))).
  cbv zeta.
  destruct (List.length (master_transmitList (masterPort b))
            =? reqQueueLimit (masterPort b));
    destruct (master_transmitList (masterPort b)); reflexivity.
Qed.

(** ** Runs *)

Lemma run_cons_inv c cs b b2 h :
  run (c :: cs) b = Ok (b2, h) ->
  exists r b1 e h',
    dispatch c b = Ok (r, b1, e) /\ run cs b1 = Ok (b2, h') /\
    h = mkStep c r e :: h'.
Proof.
  simpl. destruct (dispatch c b) as [[[r b1] e]|w] eqn:Hd; [|discriminate].
  destruct (run cs b1) as [[b2' h']|w] eqn:Hr; [|discriminate].
  intros H. inversion H; subst.
  exists r, b1, e, h'. auto.
Qed.

Lemma run_withinLimits cs : forall b b' h,
  withinLimits b -> run cs b = Ok (b', h) -> withinLimits b'.
Proof.
  induction cs as [|c cs IH]; intros b b' h Hb H.
  - simpl in H. inversion H; subst. exact Hb.
  - apply run_cons_inv in H. destruct H as (r & b1 & e & h' & Hd & Hr & _).
    eapply IH; [|exact Hr]. eapply dispatch_withinLimits; eauto.
Qed.

Lemma run_limits cs : forall b b' h,
  run cs b = Ok (b', h) ->
  respQueueLimit (slavePort b') = respQueueLimit (slavePort b) /\
  reqQueueLimit (masterPort b') = reqQueueLimit (masterPort b).
Proof.
  induction cs as [|c cs IH]; intros b b' h H.
  - simpl in H. inversion H; subst. auto.
  - apply run_cons_inv in H. destruct H as (r & b1 & e & h' & Hd & Hr & _).
    apply dispatch_limits in Hd. apply IH in Hr. intuition congruence.
Qed.

Lemma newTagBridge_withinLimits P : withinLimits (newTagBridge P).
Proof. unfold withinLimits. simpl. lia. Qed.

Lemma reachable_withinLimits P b : reachable P b -> withinLimits b.
Proof.
  intros (cs & h & H). eapply run_withinLimits; [|exact H].
  apply newTagBridge_withinLimits.
Qed.

Lemma run_outstanding cs : forall b b' h,
  run cs b = Ok (b', h) ->
  outstandingResponses (slavePort b') + List.length (departedResps h) =
  outstandingResponses (slavePort b) + reservations h.
Proof.
  induction cs as [|c cs IH]; intros b b' h H.
  - simpl in H. inversion H; subst. reflexivity.
  - apply run_cons_inv in H. destruct H as (r & b1 & e & h' & Hd & Hr & ->).
    apply dispatch_outstanding in Hd. apply IH in Hr.
    unfold departedResps, reservations, acceptedReqs in *. simpl.
    rewrite filter_app, !length_app. simpl in Hd. lia.
Qed.

Lemma run_fifo_req cs : forall b b' h,
  run cs b = Ok (b', h) ->
  map pkt (master_transmitList (masterPort b)) ++ acceptedReqs h =
  departedReqs h ++ map pkt (master_transmitList (masterPort b')).
Proof.
  induction cs as [|c cs IH]; intros b b' h H.
  - simpl in H. inversion H; subst. simpl. rewrite app_nil_r. reflexivity.
  - apply run_cons_inv in H. destruct H as (r & b1 & e & h' & Hd & Hr & ->).
    apply dispatch_fifo_req in Hd. apply IH in Hr.
    unfold departedReqs, acceptedReqs in *. simpl in *.
    rewrite app_assoc, Hd, <- !app_assoc, Hr. reflexivity.
Qed.

Lemma run_fifo_resp cs : forall b b' h,
  run cs b = Ok (b', h) ->
  map pkt (slave_transmitList (slavePort b)) ++ acceptedResps h =
  departedResps h ++ map pkt (slave_transmitList (slavePort b')).
Proof.
  induction cs as [|c cs IH]; intros b b' h H.
  - simpl in H. inversion H; subst. simpl. rewrite app_nil_r. reflexivity.
  - apply run_cons_inv in H. destruct H as (r & b1 & e & h' & Hd & Hr & ->).
    apply dispatch_fifo_resp in Hd. apply IH in Hr.
    unfold departedResps, acceptedResps in *. simpl in *.
    rewrite app_assoc, Hd, <- !app_assoc, Hr. reflexivity.
Qed.

(** ** The claims *)

(** C4.  After any sequence of calls on a freshly built bridge, the
    count of reserved response slots is at most the configured response
    queue capacity and the request queue holds at most the configured
    number of requests.  The statement covers every instant between two
    calls, since every prefix of a run is a run. *)
Theorem counters_stay_within_capacity (P : Params) (cs : list Call)
    (b : TagBridge) (h : list Step) :
  run cs (newTagBridge P) = Ok (b, h) ->
  outstandingResponses (slavePort b) <= p_resp_size P /\
  List.length (master_transmitList (masterPort b)) <= p_req_size P.
Proof.
  intros H.
  pose proof (run_withinLimits _ (newTagBridge_withinLimits P) H) as [Hs Hm].
  apply run_limits in H. destruct H as [Hl1 Hl2]. simpl in Hl1, Hl2.
  rewrite Hl1 in Hs. rewrite Hl2 in Hm. auto.
Qed.

(** C3.  Response slots are reserved and released one for one.  An
    accepted request that expects a response raises the count by one;
    an accepted request that expects none, and a refused request, leave
    it alone; a response the upstream agent takes lowers it by one, and
    a response it turns away leaves it alone.  Along any run of a fresh
    bridge the count is therefore the number of accepted requests
    expecting a response minus the number of responses that left. *)
Theorem response_slots_one_for_one :
  (forall now p b ok p' b' e,
      SlavePort_recvTimingReq now p b = Ok ((ok, p'), b', e) ->
      outstandingResponses (slavePort b') =
      outstandingResponses (slavePort b)
        + (if ok && expectsResponse p then 1 else 0)) /\
  (forall now accepted b b' e,
      SlavePort_trySendTiming now accepted b = Ok (tt, b', e) ->
      outstandingResponses (slavePort b') + (if accepted then 1 else 0) =
      outstandingResponses (slavePort b)) /\
  (forall P cs b h,
      run cs (newTagBridge P) = Ok (b, h) ->
      outstandingResponses (slavePort b) + List.length (departedResps h) =
      reservations h).
Proof.
  split; [|split].
  - intros now p b ok p' b' e H. rewrite recvTimingReq_cases in H. cbv zeta in H.
    split_step H; inversion H; subst; clear H; simpl; lia.
  - intros now a b b' e H. rewrite SlavePort_trySendTiming_cases in H.
    cbv zeta in H.
    split_step H; inversion H; subst; clear H; simpl;
      repeat match goal with
             | E : (_ =? _) = false |- _ => apply Nat.eqb_neq in E
             end; lia.
  - intros P cs b h H. apply run_outstanding in H. simpl in H. exact H.
Qed.

(** C7.  Each queue is first in, first out.  Along any run of a fresh
    bridge, the requests handed to the downstream agent followed by the
    requests still queued are the accepted requests in the order they
    were accepted; likewise for the responses handed upstream.  Ready
    times play no part: the packets that have left are always a prefix
    of the packets that came in. *)
Theorem queues_depart_in_arrival_order (P : Params) (cs : list Call)
    (b : TagBridge) (h : list Step) :
  run cs (newTagBridge P) = Ok (b, h) ->
  acceptedReqs h =
    departedReqs h ++ map pkt (master_transmitList (masterPort b)) /\
  acceptedResps h =
    departedResps h ++ map pkt (slave_transmitList (slavePort b)).
Proof.
  intros H. split.
  - apply run_fifo_req in H. exact H.
  - apply run_fifo_resp in H. exact H.
Qed.

(** C5.  A request accepted by [recvTimingReq] that expects a response
    carries a sidecar holding the source it had when it was forwarded.
    Whatever packet comes back with that sender-state stack, with any
    source, destination or other field the downstream hops may have
    written, [recvTimingResp] takes it, sets its destination to that
    original source, removes the sidecar and queues it for the upstream
    agent. *)
Theorem response_destination_is_original_source
    (now : Tick) (p p' : Packet) (b b' : TagBridge) (e : list Effect)
    (now2 : Tick) (q : Packet) (b2 : TagBridge) :
  SlavePort_recvTimingReq now p b = Ok ((true, p'), b', e) ->
  expectsResponse p = true ->
  senderState q = senderState p' ->
  exists q' b2' e2,
    MasterPort_recvTimingResp now2 q b2 = Ok ((true, q'), b2', e2) /\
    getDest q' = getSrc p /\
    senderState q' = senderState p /\
    slave_transmitList (slavePort b2') =
      slave_transmitList (slavePort b2)
        ++ [mkDeferredPacket (clockEdge now2 (master_delay (masterPort b2))) q'].
Proof.
  intros H Hexp Hq.
  rewrite recvTimingReq_cases in H. cbv zeta in H.
  unfold forwardedReq in H. rewrite Hexp in H.
  split_step H; try discriminate.
  all: inversion H; subst; clear H.
  all: rewrite recvTimingResp_cases, Hq.
  all: rewrite ?Hexp; simpl.
  all: eexists _, _, _; split; [reflexivity|]; simpl; auto.
Qed.

(** C6.  The sidecar lives exactly between forwarding and return.
    [schedTimingReq] pushes one [RequestState], holding the source of
    the request, when the request expects a response, and leaves the
    stack alone otherwise.  [schedTimingResp] pops exactly the
    [RequestState] on top of the stack of a response and uses it for
    the destination; a response whose stack is empty or topped by
    something else is a fatal error. *)
Theorem sidecar_pushed_once_popped_once :
  (forall p when b p' b' e,
      MasterPort_schedTimingReq p when b = Ok (p', b', e) ->
      senderState p' =
        (if expectsResponse p then [RequestState (getSrc p)] else [])
          ++ senderState p /\
      sidecars p' = sidecars p + (if expectsResponse p then 1 else 0)) /\
  (forall p when b origSrc rest,
      senderState p = RequestState origSrc :: rest ->
      exists p' b' e,
        SlavePort_schedTimingResp p when b = Ok (p', b', e) /\
        senderState p' = rest /\
        getDest p' = origSrc /\
        sidecars p' + 1 = sidecars p) /\
  (forall p when b,
      (forall origSrc rest, senderState p <> RequestState origSrc :: rest) ->
      SlavePort_schedTimingResp p when b = Fatal "req_state != NULL").
Proof.
  split; [|split].
  - intros p when b p' b' e H. rewrite schedTimingReq_cases in H. cbv zeta in H.
    destruct (_ =? _) in H; [discriminate|].
    inversion H; subst; clear H. unfold sidecars.
    destruct (expectsResponse p); simpl; split; auto; lia.
  - intros p when b s rest Hs. rewrite schedTimingResp_cases, Hs. cbv zeta.
    eexists _, _, _. split; [reflexivity|]. unfold sidecars. rewrite Hs.
    simpl. repeat split; lia.
  - intros p when b Hs. rewrite schedTimingResp_cases.
    destruct (senderState p) as [|[s|o] rest] eqn:E; try reflexivity.
    exfalso. eapply Hs. reflexivity.
Qed.

(** C8.  A functional probe that arrives untagged is labelled and
    tagged, then checked against the packets in the response queue of
    the slave port and after them against those in the request queue of
    the master port, one by one up to the first hit.  On a hit the
    probe is made a response and nothing is sent downstream; when no
    queued packet hits, the label is removed and the probe is sent
    downstream.  The bridge itself is left as it was. *)
Theorem functional_probe_snoops_queues_first (p : Packet) (b : TagBridge) :
  hasDSid p = false ->
  let probe := taggedProbe b p in
  let hit := existsb (pktCheckFunctional probe) (pendingPackets b) in
  exists p' e,
    SlavePort_recvFunctional p b = Ok (p', b, e) /\
    getDSid p' = Some (DSid b) /\
    e = map (CheckFunctional probe) (scanned probe (pendingPackets b))
          ++ (if hit then [] else [SendFunctional p']) /\
    (hit = true ->
       p' = makeResponse probe /\ existsb isSendFunctional e = false) /\
    (hit = false -> p' = popLabel probe).
Proof.
  intros Ht probe hit. rewrite recvFunctional_cases, Ht. cbv zeta.
  fold probe. fold hit. destruct hit eqn:Eh.
  - eexists _, _. split; [reflexivity|]. rewrite app_nil_r.
    repeat split; try discriminate.
    induction (scanned probe (pendingPackets b)); simpl; auto.
  - eexists _, _. split; [reflexivity|].
    unfold hit in Eh. rewrite (scanned_miss _ _ Eh).
    repeat split; try discriminate.
Qed.

Lemma tickAdd_tickMul_small (a b c : nat) :
  (N.of_nat a * N.of_nat b + N.of_nat c < tickModulus)%N ->
  tickAdd (tickMul a b) c = a * b + c.
Proof.
  intros Hlt. unfold tickAdd, tickMul.
  assert (Hm : (N.of_nat a * N.of_nat b < tickModulus)%N) by lia.
  rewrite (N.mod_small _ _ Hm), N2Nat.id, (N.mod_small _ _ Hlt). lia.
Qed.

(** C9, as the code has it.  An atomic request that arrives tagged is
    a fatal error.  One that arrives untagged goes to the downstream
    agent once, in the same call, changed only in that it now carries
    the tag of the bridge, and the bridge itself is left as it was.
    The latency returned is the delay of the port, counted in cycles
    and multiplied by the clock period, plus the latency the
    downstream agent reported, both operations in 64-bit ticks; when
    the sum fits in 64 bits it is that sum. *)
Theorem atomic_request_is_tagged_and_timed
    (p : Packet) (downstream : Tick) (b : TagBridge) :
  (hasDSid p = true ->
   SlavePort_recvAtomic p downstream b = Fatal "!pkt->hasDSid()") /\
  (hasDSid p = false ->
   exists latency p',
     SlavePort_recvAtomic p downstream b = Ok ((latency, p'), b, [SendAtomic p']) /\
     getDSid p' = Some (DSid b) /\
     p' = setDSid p (DSid b) /\
     latency =
       N.to_nat
         (((N.of_nat (slave_delay (slavePort b)) * N.of_nat clockPeriod)
             mod 2 ^ 64
           + N.of_nat downstream) mod 2 ^ 64)%N /\
     ((N.of_nat (slave_delay (slavePort b)) * N.of_nat clockPeriod
       + N.of_nat downstream < 2 ^ 64)%N ->
      latency = slave_delay (slavePort b) * clockPeriod + downstream)).
Proof.
  split; intros Ht; rewrite recvAtomic_cases, Ht; [reflexivity|].
  eexists _, _. split; [reflexivity|].
  split; [reflexivity|]. split; [reflexivity|]. split.
  - unfold tickAdd, tickMul, tickModulus. rewrite N2Nat.id. reflexivity.
  - intros Hlt. apply tickAdd_tickMul_small. exact Hlt.
Qed.

(** C10.  A request with the inhibit flag asserted is handled as one
    that expects no response, whatever its needs-response flag says.
    It is never turned away for want of a response slot; when the
    bridge is not already stalling and the request is untagged, the
    call returns, refuses exactly when the request queue is full,
    leaves the count of reserved slots alone, and queues the request
    with the sender-state stack it came with. *)
Theorem inhibited_request_needs_no_slot (now : Tick) (p : Packet) (b : TagBridge) :
  memInhibitAsserted p = true ->
  expectsResponse p = false /\
  refusalCause b p <> Some ResponseSlotUnavailable /\
  (forall ok p' b' e,
      SlavePort_recvTimingReq now p b = Ok ((ok, p'), b', e) ->
      ok = negb (reqQueueFull b) /\
      outstandingResponses (slavePort b') = outstandingResponses (slavePort b) /\
      senderState p' = senderState p /\
      (ok = true ->
       master_transmitList (masterPort b') =
         master_transmitList (masterPort b)
           ++ [mkDeferredPacket (clockEdge now (slave_delay (slavePort b))) p'])) /\
  (retryReq (slavePort b) = false -> hasDSid p = false ->
   exists p' b' e,
     SlavePort_recvTimingReq now p b = Ok ((negb (reqQueueFull b), p'), b', e)).
Proof.
  intros Hi.
  assert (Hexp : expectsResponse p = false).
  { unfold expectsResponse. rewrite Hi. apply andb_false_r. }
  split; [exact Hexp|]. split; [|split].
  - unfold refusalCause. rewrite Hexp. simpl.
    destruct (reqQueueFull b); discriminate.
  - intros ok p' b' e H. rewrite recvTimingReq_cases in H. cbv zeta in H.
    rewrite Hexp in H. simpl in H. unfold forwardedReq in H. rewrite Hexp in H.
    split_step H; inversion H; subst; clear H; simpl; repeat split; auto;
      discriminate.
  - intros Hr Ht. rewrite recvTimingReq_cases, Hr, Ht, Hexp. cbv zeta. simpl.
    destruct (reqQueueFull b); simpl; eexists _, _, _; reflexivity.
Qed.

Lemma isSendRetry_checks p l :
  existsb isSendRetry (map (CheckFunctional p) l) = false.
Proof. induction l; simpl; auto. Qed.

(** C2, as the code has it.  In a reachable state, whenever a call
    clears the retry flag and notifies the upstream agent, the request
    queue has room.  When the call is the slave port sending a response
    upstream, a response slot is free as well.  When the call is the
    master port sending a request downstream, the count of reserved
    response slots is not looked at. *)
Theorem retry_fires_with_room_in_request_queue
    (P : Params) (c : Call) (b b' : TagBridge) (r : Reply) (e : list Effect) :
  reachable P b ->
  dispatch c b = Ok (r, b', e) ->
  existsb isSendRetry e = true ->
  retryReq (slavePort b) = true /\
  retryReq (slavePort b') = false /\
  reqQueueFull b' = false /\
  ((exists now, c = MasterTrySend now true) \/
   (exists now, c = SlaveTrySend now true) /\ respQueueFull b' = false).
Proof.
  intros Hreach H He. apply reachable_withinLimits in Hreach.
  destruct Hreach as [Hs Hm]. step_cases H.
  all: split_step H.
  all: inversion H; subst; clear H; simpl in He.
  all: rewrite ?existsb_app, ?isSendRetry_checks in He; simpl in He.
  all: repeat match type of He with
         | context [nextSend ?ev ?n ?l] => destruct l; simpl in He
         end.
  all: try discriminate He.
  all: unfold reqQueueFull, respQueueFull in *.
  all: repeat match goal with
         | E : master_transmitList _ = _ |- _ => rewrite E in *
         | E : (_ =? _) = false |- _ => apply Nat.eqb_neq in E
         | E : negb _ = _ |- _ => apply negb_true_iff in E
         end.
  all: repeat split; auto.
  all: try (apply Nat.eqb_neq; simpl in *; lia).
  all: try (left; eexists; reflexivity).
  all: try (right; split;
            [eexists; reflexivity | apply Nat.eqb_neq; simpl in *; lia]).
Qed.

(** A refusal for a full request queue touches nothing but the retry
    flag: the packet goes back to the sender as it came. *)
Lemma refusal_on_full_request_queue_keeps_packet now p b :
  retryReq (slavePort b) = false ->
  reqQueueFull b = true ->
  SlavePort_recvTimingReq now p b = Ok ((false, p), setRetryReq true b, []).
Proof.
  intros Hr Hq. rewrite recvTimingReq_cases, Hr, Hq. reflexivity.
Qed.

(** A refusal for want of a response slot hands the packet back with
    the tag on it. *)
Lemma refusal_for_response_slot_tags_packet now p b :
  retryReq (slavePort b) = false ->
  refusalCause b p = Some ResponseSlotUnavailable ->
  hasDSid p = false ->
  SlavePort_recvTimingReq now p b =
  Ok ((false, setDSid p (DSid b)), setRetryReq true b, []).
Proof.
  unfold refusalCause. intros Hr Hc Ht. rewrite recvTimingReq_cases, Hr, Ht.
  destruct (reqQueueFull b); [discriminate|].
  destruct (expectsResponse p && respQueueFull b); [reflexivity|discriminate].
Qed.

(** A tagged request offered while the request queue has room is a
    fatal error, whatever the state of the response slots. *)
Lemma tagged_request_is_fatal now p b :
  retryReq (slavePort b) = false ->
  reqQueueFull b = false ->
  hasDSid p = true ->
  SlavePort_recvTimingReq now p b = Fatal "!pkt->hasDSid()".
Proof.
  intros Hr Hq Ht. rewrite recvTimingReq_cases, Hr, Hq, Ht.
  destruct (expectsResponse p && respQueueFull b); reflexivity.
Qed.

(** ** Further properties of the code *)

Lemma run_app cs1 : forall cs2 b b' h,
  run (cs1 ++ cs2) b = Ok (b', h) ->
  exists b1 h1 h2,
    run cs1 b = Ok (b1, h1) /\ run cs2 b1 = Ok (b', h2) /\ h = h1 ++ h2.
Proof.
  induction cs1 as [|c cs1 IH]; intros cs2 b b' h H.
  - exists b, [], h. auto.
  - rewrite <- app_comm_cons in H. apply run_cons_inv in H.
    destruct H as (r & b1 & e & h' & Hd & Hr & ->).
    apply IH in Hr. destruct Hr as (b2 & h1 & h2 & H1 & H2 & ->).
    exists b2, (mkStep c r e :: h1), h2. simpl. rewrite Hd, H1. auto.
Qed.

Lemma isSendRetry_nextSend ev now rest :
  filter isSendRetry (nextSend ev now rest) = [].
Proof. destruct rest; reflexivity. Qed.

Lemma filter_isSendRetry_checks p l :
  filter isSendRetry (map (CheckFunctional p) l) = [].
Proof. induction l; simpl; auto. Qed.

Lemma dispatch_retry_balance c b r b' e :
  dispatch c b = Ok (r, b', e) ->
  refusedReq (mkStep c r e) + (if retryReq (slavePort b) then 1 else 0) =
  List.length (filter isSendRetry e) + (if retryReq (slavePort b') then 1 else 0).
Proof.
  intros H. step_cases H.
  all: split_step H.
  all: inversion H; subst; clear H; simpl.
  all: rewrite ?filter_app, ?isSendRetry_nextSend, ?filter_isSendRetry_checks; simpl.
  all: repeat match goal with E : retryReq _ = _ |- _ => rewrite E end.
  all: try reflexivity.
Qed.

Lemma run_retry_balance cs : forall b b' h,
  run cs b = Ok (b', h) ->
  refusals h + (if retryReq (slavePort b) then 1 else 0) =
  retries h + (if retryReq (slavePort b') then 1 else 0).
Proof.
  induction cs as [|c cs IH]; intros b b' h H.
  - simpl in H. inversion H; subst. reflexivity.
  - apply run_cons_inv in H. destruct H as (r & b1 & e & h' & Hd & Hr & ->).
    apply dispatch_retry_balance in Hd. apply IH in Hr.
    unfold refusals, retries in *. simpl in *.
    rewrite filter_app, length_app. lia.
Qed.

(** Every refusal is answered by one retry notification, and there is
    never a notification without a refusal: along any run of a fresh
    bridge the refusals are the notifications sent so far, plus one
    while the retry flag is set. *)
Theorem refusals_match_retries (P : Params) (cs : list Call)
    (b : TagBridge) (h : list Step) :
  run cs (newTagBridge P) = Ok (b, h) ->
  refusals h = retries h + (if retryReq (slavePort b) then 1 else 0).
Proof.
  intros H. apply run_retry_balance in H. simpl in H. lia.
Qed.

(** While a refusal has not been answered by a retry notification, a
    further request is a fatal error whatever the request is. *)
Theorem request_before_retry_is_fatal (P : Params) (cs : list Call)
    (b : TagBridge) (h : list Step) (now : Tick) (p : Packet) :
  run cs (newTagBridge P) = Ok (b, h) ->
  refusals h <> retries h ->
  run (cs ++ [RecvTimingReq now p]) (newTagBridge P) = Fatal "!retryReq".
Proof.
  intros H Hne. pose proof (run_retry_balance _ _ H) as Hb. simpl in Hb.
  destruct (retryReq (slavePort b)) eqn:Hr; [|lia].
  clear Hb Hne. revert H. generalize (newTagBridge P) as b0. revert h.
  induction cs as [|c cs IH]; intros h b0 H.
  - simpl in H. inversion H; subst. simpl.
    rewrite bind_ret_map, recvTimingReq_cases, Hr. reflexivity.
  - apply run_cons_inv in H. destruct H as (r & b1 & e & h' & Hd & Hrun & ->).
    simpl. rewrite Hd. rewrite (IH _ _ Hrun). reflexivity.
Qed.

(** The acceptance test of [recvTimingReq].  Whenever the call
    returns, it has accepted exactly when the request queue was below
    its limit and, for a request that expects a response, the count of
    reserved slots was below its limit too; the retry flag is set
    exactly on refusal.  When the bridge is not stalling and the
    request is untagged the call does return. *)
Theorem request_accepted_iff_room
    (now : Tick) (p : Packet) (b : TagBridge) :
  (forall ok p' b' e,
      SlavePort_recvTimingReq now p b = Ok ((ok, p'), b', e) ->
      (ok = true <->
       List.length (master_transmitList (masterPort b))
         <> reqQueueLimit (masterPort b) /\
       (expectsResponse p = true ->
        outstandingResponses (slavePort b) <> respQueueLimit (slavePort b))) /\
      retryReq (slavePort b') = negb ok) /\
  (retryReq (slavePort b) = false -> hasDSid p = false ->
   exists ok p' b' e,
     SlavePort_recvTimingReq now p b = Ok ((ok, p'), b', e)).
Proof.
  split.
  - intros ok p' b' e H. rewrite recvTimingReq_cases in H. cbv zeta in H.
    unfold reqQueueFull, respQueueFull in H.
    destruct (retryReq (slavePort b)) eqn:Hr; [discriminate|].
    destruct (Nat.eqb_spec (List.length (master_transmitList (masterPort b)))
                           (reqQueueLimit (masterPort b))) as [Hq|Hq].
    { inversion H; subst. simpl. split; [|reflexivity].
      split; [discriminate | intros [Hn _]; contradiction]. }
    destruct (expectsResponse p) eqn:He; simpl in H.
    + destruct (Nat.eqb_spec (outstandingResponses (slavePort b))
                             (respQueueLimit (slavePort b))) as [Hs|Hs];
        destruct (hasDSid p); try discriminate; inversion H; subst; simpl.
      * split; [|reflexivity].
        split; [discriminate | intros [_ Hn]; exfalso; apply Hn; auto].
      * split; [|destruct (master_transmitList (masterPort b)); exact Hr].
        split; auto.
    + destruct (hasDSid p); try discriminate; inversion H; subst; simpl.
      split; [|exact Hr]. split; auto. intros _. split; [exact Hq|discriminate].
  - intros Hr Ht. rewrite recvTimingReq_cases, Hr, Ht. cbv zeta.
    destruct (reqQueueFull b); [eexists _, _, _, _; reflexivity|].
    destruct (expectsResponse p && respQueueFull b);
      eexists _, _, _, _; reflexivity.
Qed.

(** Send attempts that the peer turns down take no action: after any
    number of them, on either port, the bridge is as it was and nothing
    has left. *)
Theorem rejected_sends_change_nothing (cs : list Call)
    (b b' : TagBridge) (h : list Step) :
  forallb isRejectedSend cs = true ->
  run cs b = Ok (b', h) ->
  b' = b /\ departedReqs h = [] /\ departedResps h = [] /\ retries h = 0.
Proof.
  revert b h. induction cs as [|c cs IH]; intros b h Hall H.
  - simpl in H. inversion H; subst. auto.
  - simpl in Hall. apply andb_true_iff in Hall. destruct Hall as [Hc Hall].
    apply run_cons_inv in H. destruct H as (r & b1 & e & h' & Hd & Hr & ->).
    assert (Hstep : b1 = b /\ flat_map departedReq e = [] /\
                    flat_map departedResp e = [] /\ filter isSendRetry e = []).
    { destruct c as [| |now [|]|now [|]| |]; try discriminate Hc;
        unfold dispatch in Hd; rewrite bind_ret_map in Hd;
        rewrite ?MasterPort_trySendTiming_cases,
          ?SlavePort_trySendTiming_cases in Hd;
        split_step Hd; inversion Hd; subst; auto. }
    destruct Hstep as (-> & E1 & E2 & E3).
    destruct (IH _ _ Hall Hr) as (-> & H1 & H2 & H3).
    unfold departedReqs, departedResps, retries in *. simpl.
    rewrite E1, E2, filter_app, E3, H1, H2. simpl. auto.
Qed.

Lemma dispatch_flow c b r b' e :
  dispatch c b = Ok (r, b', e) ->
  outstandingResponses (slavePort b')
    + List.length (acceptedResp (mkStep c r e))
    + List.length (slave_transmitList (slavePort b))
    + List.length (filter expectsResponse
                     (map pkt (master_transmitList (masterPort b)))) =
  outstandingResponses (slavePort b)
    + List.length (slave_transmitList (slavePort b'))
    + List.length (filter expectsResponse
                     (map pkt (master_transmitList (masterPort b'))))
    + List.length (filter expectsResponse (flat_map departedReq e)).
Proof.
  intros H. step_cases H.
  all: split_step H.
  all: inversion H; subst; clear H; simpl.
  all: rewrite ?flat_map_app, ?departedReq_nextSend, ?departedReq_checks; simpl.
  all: repeat match goal with
         | E : master_transmitList _ = _ |- _ => rewrite E
         | E : slave_transmitList _ = _ |- _ => rewrite E
         end; simpl.
  all: rewrite ?map_app, ?filter_app, ?length_app; simpl.
  all: rewrite ?expectsResponse_forwardedReq.
  all: repeat match goal with
         | E : expectsResponse _ = _ |- _ => rewrite E
         | E : (_ =? _) = false |- _ => apply Nat.eqb_neq in E
         end; simpl.
  all: repeat match goal with
         | |- context [expectsResponse ?p] => destruct (expectsResponse p)
         end; simpl.
  all: rewrite ?length_app, ?app_nil_r; simpl; lia.
Qed.

Lemma run_flow cs : forall b b' h,
  run cs b = Ok (b', h) ->
  outstandingResponses (slavePort b')
    + List.length (acceptedResps h)
    + List.length (slave_transmitList (slavePort b))
    + List.length (filter expectsResponse
                     (map pkt (master_transmitList (masterPort b)))) =
  outstandingResponses (slavePort b)
    + List.length (slave_transmitList (slavePort b'))
    + List.length (filter expectsResponse
                     (map pkt (master_transmitList (masterPort b'))))
    + List.length (filter expectsResponse (departedReqs h)).
Proof.
  induction cs as [|c cs IH]; intros b b' h H.
  - simpl in H. inversion H; subst. simpl. lia.
  - apply run_cons_inv in H. destruct H as (r & b1 & e & h' & Hd & Hr & ->).
    apply dispatch_flow in Hd. apply IH in Hr.
    unfold acceptedResps, departedReqs in *. simpl in *.
    rewrite filter_app, !length_app. lia.
Qed.

(** Where the reserved slots are.  Along any run of a fresh bridge,
    the reserved slots plus the responses that came in from downstream
    equal the responses queued, plus the queued requests that expect a
    response, plus the requests expecting a response that were sent
    downstream. *)
Theorem reserved_slots_are_accounted_for (P : Params) (cs : list Call)
    (b : TagBridge) (h : list Step) :
  run cs (newTagBridge P) = Ok (b, h) ->
  outstandingResponses (slavePort b) + List.length (acceptedResps h) =
  List.length (slave_transmitList (slavePort b))
    + List.length (filter expectsResponse
                     (map pkt (master_transmitList (masterPort b))))
    + List.length (filter expectsResponse (departedReqs h)).
Proof.
  intros H. apply run_flow in H. simpl in H. lia.
Qed.

(** The response queue has no limit of its own in the code.  As long
    as the downstream agent has sent no more responses than it was sent
    requests expecting one, the queued responses are covered by
    reserved slots: the response queue stays within the configured
    response capacity, and a response at its head never finds the
    count of reserved slots at zero. *)
Theorem response_queue_within_capacity (P : Params) (cs : list Call)
    (b : TagBridge) (h : list Step) :
  run cs (newTagBridge P) = Ok (b, h) ->
  List.length (acceptedResps h)
    <= List.length (filter expectsResponse (departedReqs h)) ->
  List.length (slave_transmitList (slavePort b))
    <= outstandingResponses (slavePort b) /\
  List.length (slave_transmitList (slavePort b)) <= p_resp_size P /\
  (slave_transmitList (slavePort b) <> [] ->
   outstandingResponses (slavePort b) <> 0).
Proof.
  intros H Hle.
  pose proof (run_flow _ _ H) as Hf. simpl in Hf.
  pose proof (run_withinLimits _ (newTagBridge_withinLimits P) H) as [Hs _].
  apply run_limits in H. destruct H as [Hl _]. simpl in Hl. rewrite Hl in Hs.
  split; [lia|]. split; [lia|].
  intros Hne. destruct (slave_transmitList (slavePort b)); [congruence|].
  simpl in *. lia.
Qed.

(** ** Tags and timing hints on what leaves the bridge *)

Lemma sentDownstream_nextSend ev now rest :
  flat_map sentDownstream (nextSend ev now rest) = [].
Proof. destruct rest; reflexivity. Qed.

Lemma sentTimed_nextSend ev now rest :
  flat_map sentTimed (nextSend ev now rest) = [].
Proof. destruct rest; reflexivity. Qed.

Lemma sentDownstream_checks p l :
  flat_map sentDownstream (map (CheckFunctional p) l) = [].
Proof. induction l; simpl; auto. Qed.

Lemma sentTimed_checks p l :
  flat_map sentTimed (map (CheckFunctional p) l) = [].
Proof. induction l; simpl; auto. Qed.

Lemma forwardedReq_clean b p :
  getDSid (forwardedReq b p) = Some (DSid b) /\ wordDelaysZero (forwardedReq b p).
Proof.
  unfold forwardedReq, wordDelaysZero.
  destruct (expectsResponse p); simpl; auto.
Qed.

Ltac use_lists :=
  repeat match goal with
    | E : master_transmitList _ = _ |- _ => rewrite E in *
    | E : slave_transmitList _ = _ |- _ => rewrite E in *
    end.

Lemma dispatch_clean c b r b' e :
  queuesClean b ->
  dispatch c b = Ok (r, b', e) ->
  queuesClean b' /\
  Forall (fun p => getDSid p = Some (DSid b)) (flat_map sentDownstream e) /\
  Forall wordDelaysZero (flat_map sentTimed e).
Proof.
  unfold queuesClean. intros (Ht & Hm & Hs) H. step_cases H.
  all: split_step H.
  all: inversion H; subst; clear H; simpl.
  all: use_lists; simpl in *.
  all: rewrite ?flat_map_app, ?sentDownstream_nextSend, ?sentTimed_nextSend,
         ?sentDownstream_checks, ?sentTimed_checks, ?map_app; simpl.
  all: repeat match goal with
         | H : Forall _ (_ :: _) |- _ =>
             apply Forall_cons_iff in H; destruct H
         end.
  all: pose proof forwardedReq_clean as Hfwd.
  all: repeat split.
  all: repeat first [ apply Forall_nil
                    | apply Forall_cons
                    | apply Forall_app; split
                    | assumption
                    | apply Hfwd
                    | reflexivity
                    | (unfold wordDelaysZero; simpl; split; reflexivity) ].
Qed.

Lemma run_clean cs : forall b b' h,
  queuesClean b ->
  run cs b = Ok (b', h) ->
  queuesClean b' /\
  Forall (fun p => getDSid p = Some (DSid b))
         (flat_map sentDownstream (flat_map effects h)) /\
  Forall wordDelaysZero (flat_map sentTimed (flat_map effects h)).
Proof.
  induction cs as [|c cs IH]; intros b b' h Hc H.
  - simpl in H. inversion H; subst. simpl. auto.
  - apply run_cons_inv in H. destruct H as (r & b1 & e & h' & Hd & Hr & ->).
    pose proof (dispatch_limits _ _ Hd) as (_ & _ & HD).
    destruct (dispatch_clean _ Hc Hd) as (Hc1 & Ht1 & Hz1).
    destruct (IH _ _ _ Hc1 Hr) as (Hc2 & Ht2 & Hz2).
    rewrite HD in Ht2. simpl. rewrite !flat_map_app.
    split; [exact Hc2|]. split; apply Forall_app; split; assumption.
Qed.

(** Whatever the bridge hands to the downstream agent carries the tag
    the bridge was configured with: requests offered in timing mode,
    taken or not, atomic requests, and functional probes. *)
Theorem downstream_packets_carry_the_tag (P : Params) (cs : list Call)
    (b : TagBridge) (h : list Step) :
  run cs (newTagBridge P) = Ok (b, h) ->
  Forall (fun p => getDSid p = Some (p_DSid P))
         (flat_map sentDownstream (flat_map effects h)).
Proof.
  intros H. refine (proj1 (proj2 (run_clean _ _ H))).
  unfold queuesClean. simpl. auto.
Qed.

(** Every packet offered in timing mode, in either direction, has both
    timing hints at zero. *)
Theorem timed_packets_have_zero_word_delays (P : Params) (cs : list Call)
    (b : TagBridge) (h : list Step) :
  run cs (newTagBridge P) = Ok (b, h) ->
  Forall wordDelaysZero (flat_map sentTimed (flat_map effects h)).
Proof.
  intros H. refine (proj2 (proj2 (run_clean _ _ H))).
  unfold queuesClean. simpl. auto.
Qed.

(** Atomic and functional accesses leave no trace in the bridge: a run
    ends in the state reached by its timing calls alone. *)
Theorem atomic_and_functional_calls_leave_no_trace (cs : list Call)
    (b b' : TagBridge) (h : list Step) :
  run cs b = Ok (b', h) ->
  exists h', run (filter isTimingCall cs) b = Ok (b', h') /\
             departedReqs h' = departedReqs h /\
             departedResps h' = departedResps h.
Proof.
  revert b h. induction cs as [|c cs IH]; intros b h H.
  - simpl in H. inversion H; subst. exists []. auto.
  - apply run_cons_inv in H. destruct H as (r & b1 & e & h' & Hd & Hr & ->).
    destruct (IH _ _ Hr) as (h2 & Hr2 & E1 & E2).
    destruct (isTimingCall c) eqn:Ec.
    + exists (mkStep c r e :: h2). simpl. rewrite Ec. simpl.
      rewrite Hd, Hr2. unfold departedReqs, departedResps in *. simpl.
      rewrite E1, E2. auto.
    + exists h2. simpl. rewrite Ec.
      assert (Hsame : b1 = b /\ flat_map departedReq e = [] /\
                      flat_map departedResp e = []).
      { destruct c; try discriminate Ec;
          unfold dispatch in Hd; rewrite bind_ret_map in Hd;
          rewrite ?recvAtomic_cases, ?recvFunctional_cases in Hd;
          cbv zeta in Hd; split_step Hd; inversion Hd; subst; simpl;
          rewrite ?flat_map_app, ?departedReq_checks, ?departedResp_checks;
          auto. }
      destruct Hsame as (-> & D1 & D2).
      unfold departedReqs, departedResps in *. simpl. rewrite D1, D2. auto.
Qed.

(** ** Degenerate capacities *)

Lemma dispatch_neverQueues c b r b' e :
  neverQueues b ->
  dispatch c b = Ok (r, b', e) ->
  neverQueues b' /\ acceptedReq (mkStep c r e) = [] /\
  filter isSendRetry e = [] /\ flat_map departedResp e = [].
Proof.
  unfold neverQueues. intros (Hl & Ho & Hq) H. step_cases H.
  all: unfold reqQueueFull, respQueueFull in H; rewrite ?Hl, ?Ho, ?Hq in H.
  all: simpl in H.
  all: split_step H.
  all: inversion H; subst; clear H; simpl.
  all: rewrite ?filter_app, ?filter_isSendRetry_checks, ?flat_map_app,
         ?departedResp_checks; simpl.
  all: auto.
Qed.

(** A bridge configured with a request queue of size zero turns every
    request away and never sends a retry notification: whoever is
    refused first is never told to come back. *)
Theorem zero_request_capacity_never_retries (P : Params) (cs : list Call)
    (b : TagBridge) (h : list Step) :
  p_req_size P = 0 ->
  run cs (newTagBridge P) = Ok (b, h) ->
  acceptedReqs h = [] /\ retries h = 0 /\ departedResps h = [].
Proof.
  intros HP H.
  assert (Hn : neverQueues (newTagBridge P)) by (unfold neverQueues; simpl; auto).
  revert H Hn. generalize (newTagBridge P) as b0. revert h.
  induction cs as [|c cs IH]; intros h b0 H Hn.
  - simpl in H. inversion H; subst. auto.
  - apply run_cons_inv in H. destruct H as (r & b1 & e & h' & Hd & Hr & ->).
    destruct (dispatch_neverQueues _ Hn Hd) as (Hn1 & E1 & E2 & E3).
    destruct (IH _ _ Hr Hn1) as (A1 & A2 & A3).
    unfold acceptedReqs, retries, departedResps in *. simpl in *.
    rewrite E1, E3, filter_app, E2, A1, A3, length_app, A2. auto.
Qed.



(** ** Who runs [trySendTiming], and when *)

Lemma observeAll_app now w es1 es2 :
  observeAll now w (es1 ++ es2) =
  match observeAll now w es1 with
  | Some w' => observeAll now w' es2
  | None => None
  end.
Proof.
  revert w. induction es1 as [|e es1 IH]; intros w; simpl; [reflexivity|].
  destruct (observe now w e); auto.
Qed.

Lemma observeAll_checks now w p l :
  observeAll now w (map (CheckFunctional p) l) = Some w.
Proof. induction l; simpl; auto. Qed.

Lemma modeFits_snoc m d q x :
  modeFits m (d :: q) -> modeFits m ((d :: q) ++ [x]).
Proof. destruct m; simpl; auto. Qed.

Lemma dispatch_inSync c b r b' e w :
  inSync b w ->
  legalCall w c = true ->
  dispatch c b = Ok (r, b', e) ->
  exists w',
    observeAll (callTick c) (enterCall w c) e = Some w' /\ inSync b' w'.
Proof.
  unfold inSync. destruct w as [mm sm]. simpl. intros [Hm Hs] Hlegal H.
  step_cases H.
  all: split_step H.
  all: inversion H; subst; clear H; simpl in *.
  all: use_lists; simpl in *.
  all: repeat match goal with
         | E : (_ <=? _) = true |- _ => apply Nat.leb_le in E
         end.
  all: rewrite ?observeAll_app, ?observeAll_checks; simpl.
  all: destruct mm; simpl in *; try contradiction; try discriminate.
  all: destruct sm; simpl in *; try contradiction; try discriminate.
  all: repeat match goal with
         | |- context [nextSend ?ev ?n ?l] => destruct l; simpl
         end.
  all: eexists; (split; [reflexivity|]); simpl.
  all: repeat match goal with
         | |- context [match ?l ++ _ with _ => _ end] => destruct l; simpl
         end.
  all: split; auto; try lia.
Qed.

Lemma run_inSync cs : forall b w b' h,
  inSync b w ->
  run cs b = Ok (b', h) ->
  track w h <> BridgeFault /\
  (forall w', track w h = Tracked w' -> inSync b' w').
Proof.
  induction cs as [|c cs IH]; intros b w b' h Hs H.
  - simpl in H. inversion H; subst. simpl. split; [discriminate|].
    intros w' E. inversion E; subst. exact Hs.
  - apply run_cons_inv in H. destruct H as (r & b1 & e & h' & Hd & Hr & ->).
    simpl. destruct (legalCall w c) eqn:Hl.
    + destruct (dispatch_inSync _ Hs Hl Hd) as (w1 & Ho & Hs1).
      rewrite Ho. exact (IH _ _ _ _ Hs1 Hr).
    + split; discriminate.
Qed.

Lemma nothingPending_inSync P : inSync (newTagBridge P) nothingPending.
Proof. unfold inSync. simpl. auto. Qed.

(** The bridge keeps its send events in step with its queues.  Take a
    run of a fresh bridge in which [trySendTiming] of a port is only
    run for its due event or for an owed retry.  Then the bridge never
    schedules the event of a port that is already waiting for its event
    or for a retry; and after the run a port waits for nothing exactly
    when its queue is empty, while a port with packets queued waits for
    an event or a retry that comes no earlier than the ready time of
    the head packet. *)
Theorem send_events_follow_the_queues (P : Params) (cs : list Call)
    (b : TagBridge) (h : list Step) :
  run cs (newTagBridge P) = Ok (b, h) ->
  track nothingPending h <> BridgeFault /\
  (forall w, track nothingPending h = Tracked w -> inSync b w).
Proof.
  intros H. exact (run_inSync _ (nothingPending_inSync P) H).
Qed.

(** With such callers, [trySendTiming] of the master port never fails
    an assertion: the queue is not empty and its head is ready.  The
    same holds for the slave port as long as the downstream agent has
    sent no more responses than it was sent requests expecting one. *)
Theorem legal_send_attempts_do_not_fail (P : Params) (cs : list Call)
    (b : TagBridge) (h : list Step) (w : Waiting) :
  run cs (newTagBridge P) = Ok (b, h) ->
  track nothingPending h = Tracked w ->
  (forall now accepted,
      legalCall w (MasterTrySend now accepted) = true ->
      exists b' e,
        MasterPort_trySendTiming now accepted b = Ok (tt, b', e)) /\
  (List.length (acceptedResps h)
     <= List.length (filter expectsResponse (departedReqs h)) ->
   forall now accepted,
      legalCall w (SlaveTrySend now accepted) = true ->
      exists b' e,
        SlavePort_trySendTiming now accepted b = Ok (tt, b', e)).
Proof.
  intros H Ht.
  destruct (run_inSync _ (nothingPending_inSync P) H) as [_ Hs].
  specialize (Hs _ Ht). destruct Hs as [Hm Hsl]. destruct w as [mm sm].
  simpl in *. split.
  - intros now a Hl. rewrite MasterPort_trySendTiming_cases.
    destruct mm; simpl in *; try discriminate;
      destruct (master_transmitList (masterPort b)) as [|d q];
      try contradiction; apply Nat.leb_le in Hl;
      (replace (tick d <=? now) with true
         by (symmetry; apply Nat.leb_le; lia));
      destruct a; eexists _, _; reflexivity.
  - intros Hle now a Hl. rewrite SlavePort_trySendTiming_cases. cbv zeta.
    pose proof (run_flow _ _ H) as Hf. simpl in Hf.
    destruct sm; simpl in *; try discriminate;
      destruct (slave_transmitList (slavePort b)) as [|d q];
      try contradiction; apply Nat.leb_le in Hl;
      (replace (tick d <=? now) with true
         by (symmetry; apply Nat.leb_le; lia));
      (replace (outstandingResponses (slavePort b) =? 0) with false
         by (symmetry; apply Nat.eqb_neq; simpl in Hf; lia));
      destruct a; eexists _, _; reflexivity.
Qed.

(** ** Progress of a stalled sender *)

(** A stalled sender is notified by the first request that leaves
    downstream, whatever the state of the response slots, and by the
    first response that leaves upstream while the request queue has
    room; a response that leaves while the request queue is full
    notifies nobody.  One call sends at most one notification, and a
    bridge that is not stalling sends none. *)
Theorem stalled_sender_is_notified (c : Call) (b b' : TagBridge)
    (r : Reply) (e : list Effect) :
  dispatch c b = Ok (r, b', e) ->
  List.length (filter isSendRetry e) <= 1 /\
  (existsb isSendRetry e = true <->
   retryReq (slavePort b) = true /\
   ((exists now, c = MasterTrySend now true) \/
    (exists now, c = SlaveTrySend now true) /\ reqQueueFull b = false)).
Proof.
  intros H. step_cases H.
  all: split_step H.
  all: inversion H; subst; clear H; simpl.
  all: rewrite ?filter_app, ?isSendRetry_nextSend, ?filter_isSendRetry_checks,
         ?existsb_app, ?isSendRetry_checks; simpl.
  all: repeat match goal with
         | |- context [nextSend ?ev ?n ?l] => destruct l; simpl
         end.
  all: split; [lia|].
  all: split;
         [ try discriminate; intros _
         | intros (Hr & [[n Hc] | [[n Hc] Hq]]);
           try discriminate; try congruence ].
  all: try (split; [first [assumption | reflexivity]|]).
  all: try (left; eexists; reflexivity).
  all: try (right; split;
            [eexists; reflexivity | first [assumption | reflexivity]]).
  all: try (exfalso;
            match goal with
            | E : negb _ = false |- _ => apply negb_false_iff in E; congruence
            end).
Qed.

(** ** Sidecars along a run *)

Lemma forwardedReq_sidecarOnTop b p : sidecarOnTop (forwardedReq b p).
Proof.
  unfold sidecarOnTop. rewrite expectsResponse_forwardedReq. intros He.
  unfold forwardedReq. rewrite He. simpl. eexists. reflexivity.
Qed.

Lemma dispatch_sidecars c b r b' e :
  Forall sidecarOnTop (map pkt (master_transmitList (masterPort b))) ->
  dispatch c b = Ok (r, b', e) ->
  Forall sidecarOnTop (map pkt (master_transmitList (masterPort b'))) /\
  Forall sidecarOnTop (flat_map departedReq e).
Proof.
  intros Hm H. step_cases H.
  all: split_step H.
  all: inversion H; subst; clear H; simpl.
  all: use_lists; simpl in *.
  all: rewrite ?flat_map_app, ?departedReq_nextSend, ?departedReq_checks,
         ?map_app; simpl.
  all: repeat match goal with
         | H : Forall _ (_ :: _) |- _ =>
             apply Forall_cons_iff in H; destruct H
         end.
  all: pose proof forwardedReq_sidecarOnTop as Hfwd.
  all: split.
  all: repeat first [ apply Forall_nil
                    | apply Forall_cons
                    | apply Forall_app; split
                    | assumption
                    | apply Hfwd ].
Qed.

(** Every request that leaves downstream in timing mode and expects a
    response carries, on top of its sender-state stack, a sidecar that
    holds the source the request leaves with. *)
Theorem requests_leave_with_their_sidecar (P : Params) (cs : list Call)
    (b : TagBridge) (h : list Step) :
  run cs (newTagBridge P) = Ok (b, h) ->
  Forall sidecarOnTop (departedReqs h).
Proof.
  assert (Hn : Forall sidecarOnTop
                 (map pkt (master_transmitList (masterPort (newTagBridge P)))))
    by (simpl; constructor).
  revert Hn. generalize (newTagBridge P) as b0. revert h.
  induction cs as [|c cs IH]; intros h b0 Hn H.
  - simpl in H. inversion H; subst. constructor.
  - apply run_cons_inv in H. destruct H as (r & b1 & e & h' & Hd & Hr & ->).
    pose proof Hd as Hd'. eapply dispatch_sidecars in Hd'; [|exact Hn].
    destruct Hd' as [Hn1 Hd1].
    unfold departedReqs in *. simpl. apply Forall_app. split; [exact Hd1|].
    exact (IH _ _ Hn1 Hr).
Qed.

(** ** Settings *)

Lemma dispatch_sameSettings c b r b' e :
  dispatch c b = Ok (r, b', e) -> sameSettings b b'.
Proof.
  unfold sameSettings. intros H. step_cases H.
  all: split_step H.
  all: inversion H; subst; clear H; simpl; auto 7.
Qed.

(** No call changes what the bridge was built with: the name and the
    delay of the ports, the two queue limits and the tag. *)
Theorem settings_never_change (P : Params) (cs : list Call)
    (b : TagBridge) (h : list Step) :
  run cs (newTagBridge P) = Ok (b, h) ->
  slave_name (slavePort b) = (p_name P ++ ".slave")%string /\
  slave_delay (slavePort b) = p_delay P /\
  respQueueLimit (slavePort b) = p_resp_size P /\
  master_delay (masterPort b) = p_delay P /\
  reqQueueLimit (masterPort b) = p_req_size P /\
  DSid b = p_DSid P.
Proof.
  intros H.
  assert (Hs : sameSettings (newTagBridge P) b).
  { revert H. generalize (newTagBridge P) as b0. revert h.
    induction cs as [|c cs IH]; intros h b0 H.
    - simpl in H. inversion H; subst. unfold sameSettings. auto 7.
    - apply run_cons_inv in H. destruct H as (r & b1 & e & h' & Hd & Hr & _).
      apply dispatch_sameSettings in Hd. apply IH in Hr.
      unfold sameSettings in *. intuition congruence. }
  exact Hs.
Qed.

End Properties.

(** ** The model at work *)

(** C1.  On a bridge with one response slot, [reqA] is accepted and
    sent downstream.  [reqB] is then turned away because the slot is
    taken, and comes back to its sender tagged.  Once the response to
    [reqA] has left upstream the retry notification fires and nothing
    blocks [reqB] any more, yet offering the packet again ends in the
    failed assertion that a request arrives untagged. *)
Theorem refused_for_slot_comes_back_tagged :
  exists b2 h2 b4 h4,
    run (sim := demoSim) [RecvTimingReq 0 reqA; MasterTrySend 20 true]
        (newTagBridge demoParams) = Ok (b2, h2) /\
    refusalCause b2 reqB = Some ResponseSlotUnavailable /\
    SlavePort_recvTimingReq (sim := demoSim) 21 reqB b2 =
      Ok ((false, reqB_refused), setRetryReq true b2, []) /\
    hasDSid reqB = false /\ hasDSid reqB_refused = true /\
    run (sim := demoSim) [RecvTimingResp 40 respA; SlaveTrySend 60 true]
        (setRetryReq true b2) = Ok (b4, h4) /\
    existsb isSendRetry (flat_map effects h4) = true /\
    retryReq (slavePort b4) = false /\
    refusalCause b4 reqB_refused = None /\
    SlavePort_recvTimingReq (sim := demoSim) 61 reqB_refused b4 =
      Fatal "!pkt->hasDSid()".
Proof.
  eexists _, _, _, _.
  split; [vm_compute; reflexivity|].
  split; [vm_compute; reflexivity|].
  split; [vm_compute; reflexivity|].
  split; [reflexivity|].
  split; [reflexivity|].
  split; [vm_compute; reflexivity|].
  repeat split; vm_compute; reflexivity.
Qed.

(** C2 fails as stated.  On a bridge with one response slot, [reqA]
    takes the slot and [reqB] is turned away for want of a slot while
    the request queue has room.  When [reqA] leaves downstream the
    retry flag is cleared and the upstream agent is notified, with the
    response slot still taken. *)
Lemma retry_fires_while_response_slot_taken :
  exists b1 h1 b3 e,
    run (sim := demoSim) [RecvTimingReq 0 reqA] (newTagBridge demoParams)
      = Ok (b1, h1) /\
    refusalCause b1 reqB = Some ResponseSlotUnavailable /\
    SlavePort_recvTimingReq (sim := demoSim) 5 reqB b1 =
      Ok ((false, reqB_refused), setRetryReq true b1, []) /\
    MasterPort_trySendTiming (sim := demoSim) 20 true (setRetryReq true b1)
      = Ok (tt, b3, e) /\
    existsb isSendRetry e = true /\
    retryReq (slavePort b3) = false /\
    respQueueFull b3 = true.
Proof.
  eexists _, _, _, _.
  split; [vm_compute; reflexivity|].
  split; [vm_compute; reflexivity|].
  split; [vm_compute; reflexivity|].
  split; [vm_compute; reflexivity|].
  repeat split; vm_compute; reflexivity.
Qed.

(** The stalled [reqB] is notified when the response to [reqA] leaves:
    both the request queue and the response slot are free. *)
Lemma retry_fires_with_room_in_request_queue_witness :
  exists b h b' e,
    run (sim := demoSim) stalledCalls (newTagBridge demoParams) = Ok (b, h) /\
    dispatch (sim := demoSim) (SlaveTrySend 60 true) b = Ok (ReplyDone, b', e) /\
    retryReq (slavePort b) = true /\
    retryReq (slavePort b') = false /\
    reqQueueFull b' = false /\
    ((exists now, SlaveTrySend 60 true = MasterTrySend now true) \/
     (exists now, SlaveTrySend 60 true = SlaveTrySend now true) /\
     respQueueFull b' = false).
Proof.
  eexists _, _, _, _.
  split; [vm_compute; reflexivity|].
  split; [vm_compute; reflexivity|].
  eapply (@retry_fires_with_room_in_request_queue demoSim demoParams
            (SlaveTrySend 60 true) _ _ ReplyDone _).
  - exists stalledCalls. eexists. vm_compute. reflexivity.
  - vm_compute. reflexivity.
  - vm_compute. reflexivity.
Defined.

(** One request, one response: the slot taken on the way in is given
    back on the way out. *)
Lemma response_slots_one_for_one_witness :
  exists b h,
    run (sim := demoSim) roundTripCalls (newTagBridge demoParams) = Ok (b, h) /\
    outstandingResponses (slavePort b) + List.length (departedResps h) =
    reservations h.
Proof.
  eexists _, _. split; [vm_compute; reflexivity|].
  eapply (proj2 (proj2 (@response_slots_one_for_one demoSim)) demoParams
                roundTripCalls).
  vm_compute. reflexivity.
Defined.

(** Two requests queued and sent on a bridge with room for two. *)
Lemma counters_stay_within_capacity_witness :
  exists b h,
    run (sim := demoSim) lateDepartureCalls (newTagBridge demoParams) = Ok (b, h) /\
    outstandingResponses (slavePort b) <= p_resp_size demoParams /\
    List.length (master_transmitList (masterPort b)) <= p_req_size demoParams.
Proof.
  eexists _, _. split; [vm_compute; reflexivity|].
  eapply (@counters_stay_within_capacity demoSim demoParams lateDepartureCalls).
  vm_compute. reflexivity.
Defined.

(** The response to [reqA] comes back from port 9 addressed to port 1
    and leaves the master port addressed to port 3, where [reqA] came
    from. *)
Lemma response_destination_is_original_source_witness :
  exists q' b2' e2,
    MasterPort_recvTimingResp (sim := demoSim) 40 respA (newTagBridge demoParams)
      = Ok ((true, q'), b2', e2) /\
    getDest q' = getSrc reqA /\
    senderState q' = senderState reqA /\
    slave_transmitList (slavePort b2') = [mkDeferredPacket 60 q'].
Proof.
  eapply (@response_destination_is_original_source demoSim
            0 reqA fwdA (newTagBridge demoParams) _ _ 40 respA
            (newTagBridge demoParams)).
  - vm_compute. reflexivity.
  - reflexivity.
  - reflexivity.
Defined.

(** [reqA] gets its sidecar, [respA] gives it up, and [reqA] itself,
    which carries none, cannot come in as a response. *)
Lemma sidecar_pushed_once_popped_once_witness :
  (exists p' b' e,
     MasterPort_schedTimingReq reqA 20 (newTagBridge demoParams) = Ok (p', b', e) /\
     senderState p' = [RequestState 3%Z] /\ sidecars p' = 1) /\
  (exists p' b' e,
     SlavePort_schedTimingResp respA 60 (newTagBridge demoParams) = Ok (p', b', e) /\
     senderState p' = [] /\ getDest p' = 3%Z /\ sidecars p' + 1 = sidecars respA) /\
  SlavePort_schedTimingResp reqA 60 (newTagBridge demoParams)
    = Fatal "req_state != NULL".
Proof.
  split; [|split].
  - eexists _, _, _. split; [vm_compute; reflexivity|].
    eapply (proj1 sidecar_pushed_once_popped_once reqA 20
                  (newTagBridge demoParams)).
    vm_compute. reflexivity.
  - apply (proj1 (proj2 sidecar_pushed_once_popped_once) respA 60
                 (newTagBridge demoParams) 3%Z []).
    reflexivity.
  - apply (proj2 (proj2 sidecar_pushed_once_popped_once) reqA 60
                 (newTagBridge demoParams)).
    intros s rest. simpl. discriminate.
Defined.

(** [reqA] leaves at tick 50, after [reqW] became ready at tick 30,
    and still leaves first. *)
Lemma queues_depart_in_arrival_order_witness :
  exists b h,
    run (sim := demoSim) lateDepartureCalls (newTagBridge demoParams) = Ok (b, h) /\
    acceptedReqs h =
      departedReqs h ++ map pkt (master_transmitList (masterPort b)) /\
    acceptedResps h =
      departedResps h ++ map pkt (slave_transmitList (slavePort b)).
Proof.
  eexists _, _. split; [vm_compute; reflexivity|].
  eapply (@queues_depart_in_arrival_order demoSim demoParams lateDepartureCalls).
  vm_compute. reflexivity.
Defined.

(** A probe for the address of the pending response to [reqA] is
    answered from the response queue. *)
Lemma functional_probe_snoops_queues_first_witness :
  hasDSid probeA = false /\
  exists p' e,
    SlavePort_recvFunctional (sim := demoSim) probeA pendingResponseBridge
      = Ok (p', pendingResponseBridge, e) /\
    getDSid p' = Some 7 /\
    isResponse p' = true /\
    existsb isSendFunctional e = false.
Proof.
  split; [reflexivity|].
  destruct (@functional_probe_snoops_queues_first demoSim probeA
              pendingResponseBridge eq_refl)
    as (p' & e & Hrun & Htag & _ & Hhit & _).
  exists p', e. split; [exact Hrun|]. split; [exact Htag|].
  destruct Hhit as [Hp He]; [vm_compute; reflexivity|].
  split; [rewrite Hp; reflexivity | exact He].
Defined.

(** With the only response slot taken, the inhibited [reqI] is still
    accepted, although its needs-response flag is set. *)
Lemma inhibited_request_needs_no_slot_witness :
  needsResponse reqI = true /\
  respQueueFull slotTakenBridge = true /\
  refusalCause slotTakenBridge reqI <> Some ResponseSlotUnavailable /\
  exists p' b' e,
    SlavePort_recvTimingReq (sim := demoSim) 5 reqI slotTakenBridge
      = Ok ((true, p'), b', e) /\
    outstandingResponses (slavePort b')
      = outstandingResponses (slavePort slotTakenBridge) /\
    senderState p' = senderState reqI.
Proof.
  split; [reflexivity|]. split; [vm_compute; reflexivity|].
  destruct (@inhibited_request_needs_no_slot demoSim 5 reqI slotTakenBridge
              eq_refl)
    as (_ & Hcause & Hany & Hruns).
  split; [exact Hcause|].
  destruct Hruns as (p' & b' & e & Hrun); [reflexivity | reflexivity |].
  exists p', b', e. split; [exact Hrun|].
  destruct (Hany _ _ _ _ Hrun) as (_ & Hout & Hstack & _).
  split; [exact Hout | exact Hstack].
Defined.

(** ** The further properties at work *)

(** One refusal, no notification yet, and the retry flag set. *)
Lemma refusals_match_retries_witness :
  exists b h,
    run (sim := demoSim) stalledCalls (newTagBridge demoParams) = Ok (b, h) /\
    refusals h = retries h + (if retryReq (slavePort b) then 1 else 0).
Proof.
  eexists _, _. split; [vm_compute; reflexivity|].
  eapply (@refusals_match_retries demoSim demoParams stalledCalls).
  vm_compute. reflexivity.
Defined.

(** After [reqB] has been turned away, offering [reqW] is fatal. *)
Lemma request_before_retry_is_fatal_witness :
  run (sim := demoSim) (stalledCalls ++ [RecvTimingReq 45 reqW])
      (newTagBridge demoParams) = Fatal "!retryReq".
Proof.
  eapply (@request_before_retry_is_fatal demoSim demoParams stalledCalls).
  - vm_compute. reflexivity.
  - vm_compute. lia.
Defined.

(** [reqW] expects no response and is accepted although the only
    response slot is taken. *)
Lemma request_accepted_iff_room_witness :
  exists p' b' e,
    SlavePort_recvTimingReq (sim := demoSim) 5 reqW slotTakenBridge
      = Ok ((true, p'), b', e) /\
    (true = true <->
     List.length (master_transmitList (masterPort slotTakenBridge))
       <> reqQueueLimit (masterPort slotTakenBridge) /\
     (expectsResponse reqW = true ->
      outstandingResponses (slavePort slotTakenBridge)
        <> respQueueLimit (slavePort slotTakenBridge))) /\
    retryReq (slavePort b') = negb true.
Proof.
  eexists _, _, _. split; [vm_compute; reflexivity|].
  eapply (proj1 (@request_accepted_iff_room demoSim 5 reqW slotTakenBridge)).
  vm_compute. reflexivity.
Defined.

(** The downstream agent turns [reqA] down twice. *)
Lemma rejected_sends_change_nothing_witness :
  exists b' h,
    run (sim := demoSim) [MasterTrySend 20 false; MasterTrySend 25 false]
        slotTakenBridge = Ok (b', h) /\
    b' = slotTakenBridge /\ departedReqs h = [] /\ departedResps h = [] /\
    retries h = 0.
Proof.
  eexists _, _. split; [vm_compute; reflexivity|].
  eapply (@rejected_sends_change_nothing demoSim
            [MasterTrySend 20 false; MasterTrySend 25 false]).
  - reflexivity.
  - vm_compute. reflexivity.
Defined.

(** The slot reserved for [reqA] is held by its queued response. *)
Lemma reserved_slots_are_accounted_for_witness :
  exists b h,
    run (sim := demoSim) stalledCalls (newTagBridge demoParams) = Ok (b, h) /\
    outstandingResponses (slavePort b) + List.length (acceptedResps h) =
    List.length (slave_transmitList (slavePort b))
      + List.length (filter expectsResponse
                       (map pkt (master_transmitList (masterPort b))))
      + List.length (filter expectsResponse (departedReqs h)).
Proof.
  eexists _, _. split; [vm_compute; reflexivity|].
  eapply (@reserved_slots_are_accounted_for demoSim demoParams stalledCalls).
  vm_compute. reflexivity.
Defined.

(** One request went down, one response came back. *)
Lemma response_queue_within_capacity_witness :
  exists b h,
    run (sim := demoSim) stalledCalls (newTagBridge demoParams) = Ok (b, h) /\
    List.length (slave_transmitList (slavePort b))
      <= outstandingResponses (slavePort b) /\
    List.length (slave_transmitList (slavePort b)) <= p_resp_size demoParams /\
    (slave_transmitList (slavePort b) <> [] ->
     outstandingResponses (slavePort b) <> 0).
Proof.
  eexists _, _. split; [vm_compute; reflexivity|].
  eapply (@response_queue_within_capacity demoSim demoParams stalledCalls).
  - vm_compute. reflexivity.
  - vm_compute. lia.
Defined.

(** A timed request, an atomic request and a functional probe all
    reach the downstream agent with tag 7. *)
Lemma downstream_packets_carry_the_tag_witness :
  exists b h,
    run (sim := demoSim) mixedCalls (newTagBridge demoParams) = Ok (b, h) /\
    List.length (flat_map sentDownstream (flat_map effects h)) = 3 /\
    Forall (fun p => getDSid p = Some (p_DSid demoParams))
           (flat_map sentDownstream (flat_map effects h)).
Proof.
  eexists _, _. split; [vm_compute; reflexivity|].
  split; [vm_compute; reflexivity|].
  eapply (@downstream_packets_carry_the_tag demoSim demoParams mixedCalls).
  vm_compute. reflexivity.
Defined.

(** [reqA] came with hints 5 and 6, its response with 3 and 4. *)
Lemma timed_packets_have_zero_word_delays_witness :
  exists b h,
    run (sim := demoSim) roundTripCalls (newTagBridge demoParams) = Ok (b, h) /\
    List.length (flat_map sentTimed (flat_map effects h)) = 2 /\
    Forall wordDelaysZero (flat_map sentTimed (flat_map effects h)).
Proof.
  eexists _, _. split; [vm_compute; reflexivity|].
  split; [vm_compute; reflexivity|].
  eapply (@timed_packets_have_zero_word_delays demoSim demoParams roundTripCalls).
  vm_compute. reflexivity.
Defined.

(** Dropping the atomic request and the functional probe from
    [mixedCalls] leads to the same bridge. *)
Lemma atomic_and_functional_calls_leave_no_trace_witness :
  exists b h h',
    run (sim := demoSim) mixedCalls (newTagBridge demoParams) = Ok (b, h) /\
    run (sim := demoSim) (filter isTimingCall mixedCalls)
        (newTagBridge demoParams) = Ok (b, h') /\
    departedReqs h' = departedReqs h /\
    departedResps h' = departedResps h.
Proof.
  destruct (@atomic_and_functional_calls_leave_no_trace demoSim mixedCalls
              (newTagBridge demoParams)
              (bridgeAfter mixedCalls) (historyAfter mixedCalls))
    as (h' & H1 & H2 & H3).
  - vm_compute. reflexivity.
  - eexists _, _, h'. split; [vm_compute; reflexivity|].
    split; [exact H1|]. split; [exact H2 | exact H3].
Defined.

(** With no room for requests, [reqW] is turned away and stays so. *)
Lemma zero_request_capacity_never_retries_witness :
  exists b h,
    run (sim := demoSim) [RecvTimingReq 0 reqW] (newTagBridge noReqParams)
      = Ok (b, h) /\
    retryReq (slavePort b) = true /\
    acceptedReqs h = [] /\ retries h = 0 /\ departedResps h = [].
Proof.
  eexists _, _. split; [vm_compute; reflexivity|].
  split; [reflexivity|].
  eapply (@zero_request_capacity_never_retries demoSim noReqParams
            [RecvTimingReq 0 reqW]).
  - reflexivity.
  - vm_compute. reflexivity.
Defined.


(** After [waitingCalls] the master port is owed a retry for [reqW],
    which has been ready since tick 30. *)
Lemma send_events_follow_the_queues_witness :
  exists b h,
    run (sim := demoSim) waitingCalls (newTagBridge demoParams) = Ok (b, h) /\
    track nothingPending h = Tracked (mkWaiting (RetryOwed 30) NoSend) /\
    track nothingPending h <> BridgeFault /\
    (forall w, track nothingPending h = Tracked w -> inSync b w).
Proof.
  eexists _, _. split; [vm_compute; reflexivity|].
  split; [vm_compute; reflexivity|].
  eapply (@send_events_follow_the_queues demoSim demoParams waitingCalls).
  vm_compute. reflexivity.
Defined.

(** The retry for [reqW] at tick 35, and the event for the response to
    [reqA] at tick 60, both find their packet. *)
Lemma legal_send_attempts_do_not_fail_witness :
  (exists b' e,
     MasterPort_trySendTiming (sim := demoSim) 35 true (bridgeAfter waitingCalls)
       = Ok (tt, b', e)) /\
  (exists b' e,
     SlavePort_trySendTiming (sim := demoSim) 60 true (bridgeAfter stalledCalls)
       = Ok (tt, b', e)).
Proof.
  split.
  - destruct (@legal_send_attempts_do_not_fail demoSim demoParams waitingCalls
                (bridgeAfter waitingCalls) (historyAfter waitingCalls)
                (mkWaiting (RetryOwed 30) NoSend)) as [Hm _];
      [vm_compute; reflexivity | vm_compute; reflexivity |].
    apply Hm. reflexivity.
  - destruct (@legal_send_attempts_do_not_fail demoSim demoParams stalledCalls
                (bridgeAfter stalledCalls) (historyAfter stalledCalls)
                (mkWaiting NoSend (EventAt 60))) as [_ Hs];
      [vm_compute; reflexivity | vm_compute; reflexivity |].
    apply Hs; [vm_compute; lia | reflexivity].
Defined.

(** The response to [reqA] leaves and the stalled sender of [reqB] is
    told to come back. *)
Lemma stalled_sender_is_notified_witness :
  exists b' e,
    dispatch (sim := demoSim) (SlaveTrySend 60 true) (bridgeAfter stalledCalls)
      = Ok (ReplyDone, b', e) /\
    List.length (filter isSendRetry e) <= 1 /\
    (existsb isSendRetry e = true <->
     retryReq (slavePort (bridgeAfter stalledCalls)) = true /\
     ((exists now, SlaveTrySend 60 true = MasterTrySend now true) \/
      (exists now, SlaveTrySend 60 true = SlaveTrySend now true) /\
      reqQueueFull (bridgeAfter stalledCalls) = false)).
Proof.
  eexists _, _. split; [vm_compute; reflexivity|].
  eapply (@stalled_sender_is_notified demoSim (SlaveTrySend 60 true)
            (bridgeAfter stalledCalls) _ ReplyDone).
  vm_compute. reflexivity.
Defined.

(** [reqA] leaves as [fwdA], with the sidecar for port 3 on top. *)
Lemma requests_leave_with_their_sidecar_witness :
  exists b h,
    run (sim := demoSim) roundTripCalls (newTagBridge demoParams) = Ok (b, h) /\
    departedReqs h = [fwdA] /\
    Forall sidecarOnTop (departedReqs h).
Proof.
  eexists _, _. split; [vm_compute; reflexivity|].
  split; [vm_compute; reflexivity|].
  eapply (@requests_leave_with_their_sidecar demoSim demoParams roundTripCalls).
  vm_compute. reflexivity.
Defined.

(** After a full round trip the bridge still has the settings of
    [demoParams]. *)
Lemma settings_never_change_witness :
  exists b h,
    run (sim := demoSim) roundTripCalls (newTagBridge demoParams) = Ok (b, h) /\
    slave_name (slavePort b) = (p_name demoParams ++ ".slave")%string /\
    slave_delay (slavePort b) = p_delay demoParams /\
    respQueueLimit (slavePort b) = p_resp_size demoParams /\
    master_delay (masterPort b) = p_delay demoParams /\
    reqQueueLimit (masterPort b) = p_req_size demoParams /\
    DSid b = p_DSid demoParams.
Proof.
  eexists _, _. split; [vm_compute; reflexivity|].
  eapply (@settings_never_change demoSim demoParams roundTripCalls).
  vm_compute. reflexivity.
Defined.

(** C9 fails as stated.  With a delay of one tick and a downstream
    latency of [2^64 - 1] ticks the sum does not fit in a tick: the
    bridge answers 0, not the delay plus the downstream latency. *)
Lemma atomic_latency_wraps_around :
  SlavePort_recvAtomic (sim := unitClockSim) reqA maxTick
                       (newTagBridge unitDelayParams)
    = Ok ((0, setDSid reqA 7), newTagBridge unitDelayParams,
          [SendAtomic (setDSid reqA 7)]) /\
  slave_delay (slavePort (newTagBridge unitDelayParams))
    * clockPeriod (Simulator := unitClockSim) + maxTick <> 0.
Proof.
  split.
  - rewrite recvAtomic_cases.
    replace (tickAdd (tickMul (slave_delay (slavePort (newTagBridge unitDelayParams)))
                              (clockPeriod (Simulator := unitClockSim)))
                     maxTick) with 0; [reflexivity|].
    unfold tickAdd, maxTick. rewrite N2Nat.id.
    change (tickMul (slave_delay (slavePort (newTagBridge unitDelayParams)))
                    (clockPeriod (Simulator := unitClockSim))) with 1.
    reflexivity.
  - change (slave_delay (slavePort (newTagBridge unitDelayParams))
            * clockPeriod (Simulator := unitClockSim)) with 1.
    rewrite Nat.add_1_l. apply Nat.neq_succ_0.
Qed.

(** [reqB] sent atomically through the bridge of [demoParams]: two
    cycles of ten ticks, plus the eleven ticks of the downstream
    agent. *)
Lemma atomic_request_is_tagged_and_timed_witness :
  exists p',
    SlavePort_recvAtomic (sim := demoSim) reqB 11 (newTagBridge demoParams)
      = Ok ((31, p'), newTagBridge demoParams, [SendAtomic p']) /\
    getDSid p' = Some 7 /\
    SlavePort_recvAtomic (sim := demoSim) reqB_refused 11
                         (newTagBridge demoParams)
      = Fatal "!pkt->hasDSid()".
Proof.
  destruct (@atomic_request_is_tagged_and_timed demoSim reqB 11
              (newTagBridge demoParams)) as [_ Hok].
  destruct (@atomic_request_is_tagged_and_timed demoSim reqB_refused 11
              (newTagBridge demoParams)) as [Hfatal _].
  destruct Hok as (latency & p' & Hrun & Htag & _ & _ & Hsum);
    [reflexivity|].
  exists p'. rewrite Hsum in Hrun by (vm_compute; reflexivity).
  split; [exact Hrun|]. split; [exact Htag|].
  apply Hfatal. reflexivity.
Defined.
